(** * The workshop streaming client: the SSE consuming loop of
    [createSessionWithStreaming] (frontend/src/lib/hooks/use-workshop.ts)
    and [pollSessionUntilComplete] (frontend/src/lib/api/workshop.ts).

    The React state [streamingMessages : Map<string, StreamingMessage>] is a
    finite map from the key string [`${agent_id}-${round}`] to a record; every
    [setStreamingMessages(prev => ...)] updater is a function on such maps.
    The local variables [sessionId] and [currentEventType] of the loop are
    threaded through explicitly, and the calls with an outside effect
    (toasts, [getSession], [setQueryData], ...) are collected in a trace.
    The insertion order of the [Map], which no updater reads, is not part of
    the model. *)

From Stdlib Require Import ZArith Ascii String List.
From stdpp Require Import base option list strings pretty gmap fin_maps.

Local Open Scope Z_scope.

(** ** Data model (frontend/src/lib/types/workshop.ts) *)

Record ToolCall := {
  tool : string;
  input : string;   (* opaque JSON text *)
  output : string
}.

Record AgentMessage := {
  am_agent_id : string;
  am_agent_name : string;
  am_content : string;
  am_round_number : Z;
  am_timestamp : string;
  am_tool_calls : list ToolCall
}.

Inductive SessionStatus := created | in_progress | completed | failed.

Record WorkshopSession := {
  id : string;
  notebook_id : string;
  mode : string;
  topic : string;
  status : SessionStatus;
  messages : list AgentMessage;
  final_report : option string;
  total_rounds : Z;
  agent_count : Z
}.

(** The [StreamingMessage] interface of use-workshop.ts; [tool_calls] is an
    optional field. *)
Module Msg.
Record t := mk {
  agent_id : string;
  agent_name : string;
  content : string;
  round_number : Z;
  timestamp : string;
  isComplete : bool;
  tool_calls : option (list ToolCall)
}.
End Msg.

(** The object [data] that [JSON.parse] returns for a [data:] line.  Every
    field the loop reads may be absent ([undefined]); when present it has the
    type of the event table (strings, an integral number for [round], an array
    for [tool_calls]). *)
Module Data.
Record t := mk {
  session_id : option string;
  agent_id : option string;
  round : option Z;
  chunk : option string;
  content : option string;
  tool_calls : option (list ToolCall);
  timestamp : option string;
  error : option string
}.
End Data.

(** ** JavaScript truthiness and [||] on the types used here *)

Definition truthy_string (s : string) : bool := negb (String.eqb s "").
Definition truthy_number (n : Z) : bool := negb (n =? 0)%Z.

(** [x] used as a condition, for an optional string field. *)
Definition truthy (x : option string) : bool :=
  match x with Some s => truthy_string s | None => false end.

(** [x || y] for an optional string field [x]. *)
Definition or_string (x : option string) (y : string) : string :=
  match x with
  | Some s => if truthy_string s then s else y
  | None => y
  end.

(** [x || []]: an array, even an empty one, is truthy. *)
Definition or_empty {A} (x : option (list A)) : list A :=
  match x with Some l => l | None => [] end.

(** The template literal [`${data.agent_id}-${data.round}`]. *)
Definition key_of (agent_id : string) (round : Z) : string :=
  agent_id +:+ "-" +:+ pretty round.

(** The guard [data.agent_id && data.round] shared by the three agent events:
    it gives the two values when both are truthy. *)
Definition keyed (data : Data.t) : option (string * Z) :=
  match Data.agent_id data, Data.round data with
  | Some a, Some r =>
      if truthy_string a && truthy_number r then Some (a, r) else None
  | _, _ => None
  end.

(** ** The [setStreamingMessages] updaters *)

(** [agent_start]: [if (!newMap.has(key)) newMap.set(key, {...})]. *)
Definition agent_start_update (now agent_id : string) (round : Z)
    (prev : gmap string Msg.t) : gmap string Msg.t :=
  let key := key_of agent_id round in
  match prev !! key with
  | Some _ => prev
  | None =>
      <[key := Msg.mk agent_id agent_id "" round now false None]> prev
  end.

(** [agent_chunk]: append to the existing record, or create one. *)
Definition agent_chunk_update (now agent_id : string) (round : Z)
    (chunk : string) (prev : gmap string Msg.t) : gmap string Msg.t :=
  let key := key_of agent_id round in
  match prev !! key with
  | Some existing =>
      <[key := Msg.mk (Msg.agent_id existing) (Msg.agent_name existing)
                 (Msg.content existing +:+ chunk)
                 (Msg.round_number existing) now
                 (Msg.isComplete existing) (Msg.tool_calls existing)]> prev
  | None =>
      <[key := Msg.mk agent_id agent_id chunk round now false None]> prev
  end.

(** [agent_complete]: full content and tool calls. *)
Definition agent_complete_update (now agent_id : string) (round : Z)
    (data : Data.t) (prev : gmap string Msg.t) : gmap string Msg.t :=
  let key := key_of agent_id round in
  match prev !! key with
  | Some existing =>
      <[key := Msg.mk (Msg.agent_id existing) (Msg.agent_name existing)
                 (or_string (Data.content data) (Msg.content existing))
                 (Msg.round_number existing)
                 (or_string (Data.timestamp data) (Msg.timestamp existing))
                 true
                 (Some (or_empty (Data.tool_calls data)))]> prev
  | None =>
      <[key := Msg.mk agent_id agent_id
                 (or_string (Data.content data) "")
                 round
                 (or_string (Data.timestamp data) now)
                 true
                 (Some (or_empty (Data.tool_calls data)))]> prev
  end.

(** [{ ...msg, isComplete: true }]. *)
Definition mark_complete (msg : Msg.t) : Msg.t :=
  Msg.mk (Msg.agent_id msg) (Msg.agent_name msg) (Msg.content msg)
         (Msg.round_number msg) (Msg.timestamp msg) true (Msg.tool_calls msg).

(** [session_complete]:
    [newMap.forEach((msg, key) => newMap.set(key, {...msg, isComplete: true}))]
    visits every entry and overwrites it under its own key. *)
Definition session_complete_update (prev : gmap string Msg.t)
    : gmap string Msg.t :=
  map_fold (λ key msg newMap, <[key := mark_complete msg]> newMap) prev prev.

(** What the [if / else if] chain on [currentEventType] does to
    [streamingMessages] for one parsed [data:] line; [now] is the reading of
    [new Date().toISOString()] while the line is handled. *)
Definition reduce (now ty : string) (data : Data.t)
    (prev : gmap string Msg.t) : gmap string Msg.t :=
  if String.eqb ty "agent_start" then
    match keyed data with
    | Some (a, r) => agent_start_update now a r prev
    | None => prev
    end
  else if String.eqb ty "agent_chunk" then
    match keyed data, Data.chunk data with
    | Some (a, r), Some c =>
        if truthy_string c then agent_chunk_update now a r c prev else prev
    | _, _ => prev
    end
  else if String.eqb ty "agent_complete" then
    match keyed data with
    | Some (a, r) => agent_complete_update now a r data prev
    | None => prev
    end
  else if String.eqb ty "session_complete" then
    if truthy (Data.session_id data) then session_complete_update prev
    else prev
  else prev.

(** ** Runs of the reducer over a list of events

    An event is the clock reading while it is handled, its type tag and its
    parsed payload. *)
Definition Event : Type := string * string * Data.t.

Definition reduce_all (events : list Event) (prev : gmap string Msg.t)
    : gmap string Msg.t :=
  fold_left (λ m '(now, ty, data), reduce now ty data m) events prev.

(** The three event types that carry an agent id and a round. *)
Definition agent_event (ty : string) : bool :=
  String.eqb ty "agent_start" || String.eqb ty "agent_chunk"
  || String.eqb ty "agent_complete".

(** An event of one of these types whose payload has the given [agent_id]
    and [round]. *)
Definition event_for (a : string) (r : Z) (e : Event) : Prop :=
  let '(_, ty, data) := e in
  agent_event ty = true ∧ Data.agent_id data = Some a ∧ Data.round data = Some r.

(** An [agent_start] or [agent_chunk] event for [agent_id], [round]. *)
Definition fragment_for (a : string) (r : Z) (e : Event) : Prop :=
  let '(_, ty, data) := e in
  (ty = "agent_start" ∨ ty = "agent_chunk")
  ∧ Data.agent_id data = Some a ∧ Data.round data = Some r.

(** The deltas of the [agent_chunk] events of a list, concatenated. *)
Fixpoint chunks_of (events : list Event) : string :=
  match events with
  | [] => ""
  | (_, ty, data) :: rest =>
      (if String.eqb ty "agent_chunk" then or_string (Data.chunk data) ""
       else "") +:+ chunks_of rest
  end.

(** The merges of two lists that keep the order inside each. *)
Inductive Interleave {A} : list A → list A → list A → Prop :=
| interleave_nil : Interleave [] [] []
| interleave_l x l1 l2 l :
    Interleave l1 l2 l → Interleave (x :: l1) l2 (x :: l)
| interleave_r x l1 l2 l :
    Interleave l1 l2 l → Interleave l1 (x :: l2) (x :: l).

(** The content the map holds under a key, the empty string when there is
    no record. *)
Definition content_at (m : gmap string Msg.t) (k : string) : string :=
  match m !! k with Some existing => Msg.content existing | None => "" end.

(** No character of the string is a dash. *)
Fixpoint dash_free (s : string) : Prop :=
  match s with
  | EmptyString => True
  | String c s' => c ≠ "-"%char ∧ dash_free s'
  end.

(** Every key of [m] is a key of [m'], and a record that is complete in [m]
    is complete in [m']. *)
Definition grows (m m' : gmap string Msg.t) : Prop :=
  ∀ k rec, m !! k = Some rec →
    ∃ rec', m' !! k = Some rec'
            ∧ (Msg.isComplete rec = true → Msg.isComplete rec' = true).

(** ** String helpers of the line parser *)

(** [line.startsWith(pre)]. *)
Definition startsWith (line pre : string) : bool := String.prefix pre line.

(** [s.substring(n)]: the string without its first [n] characters. *)
Fixpoint substring_from (n : nat) (s : string) : string :=
  match n, s with
  | O, _ => s
  | S n', String _ s' => substring_from n' s'
  | S _, EmptyString => EmptyString
  end.

(** White space and line terminators that [trim] removes (the ASCII ones:
    TAB, LF, VT, FF, CR and space). *)
Definition is_white_space (c : ascii) : bool :=
  let n := nat_of_ascii c in
  ((9 <=? n)%nat && (n <=? 13)%nat) || (n =? 32)%nat.

Fixpoint trim_start (s : string) : string :=
  match s with
  | String c s' => if is_white_space c then trim_start s' else s
  | EmptyString => EmptyString
  end.

Fixpoint trim_end (s : string) : string :=
  match s with
  | String c s' =>
      let t := trim_end s' in
      if is_white_space c && String.eqb t "" then "" else String c t
  | EmptyString => EmptyString
  end.

Definition trim (s : string) : string := trim_end (trim_start s).

(** [chunk.split('\n')]. *)
Fixpoint split_lines (s : string) : list string :=
  match s with
  | EmptyString => [""]
  | String c s' =>
      if Ascii.eqb c "010"%char then "" :: split_lines s'
      else match split_lines s' with
           | l :: ls => String c l :: ls
           | [] => [String c ""]
           end
  end.

(** A line that is neither an [event:] line nor a [data:] line with a
    payload: an SSE comment such as the keepalive, or a blank line. *)
Definition inert (line : string) : Prop :=
  startsWith line "event:" = false
  ∧ (startsWith line "data:" = false
     ∨ trim (substring_from 5 line) = "").

(** ** The consuming loop *)

(** Calls of the loop that reach outside it, in program order.
    [console.log] is left out, [console.error] is kept. *)
Inductive Effect :=
| SetCurrentSessionId (sid : string)
| ToastSuccess (msg : string)
| ToastError (msg : string)
| ConsoleError (msg : string)
| GetSession (sid : string)
| SetQueryData (sid : string) (s : WorkshopSession)
| RefetchSessions
| StartPolling (sid : string)
| SetIsStreaming (b : bool)
| Sleep (ms : Z).

(** The state the loop carries from line to line: the React state
    [streamingMessages], the two [let] variables, and the number of
    [getSession] requests sent so far. *)
Record Loop := mkLoop {
  streamingMessages : gmap string Msg.t;
  sessionId : string;
  currentEventType : string;
  requests : nat
}.

(** State on entry to the [while (true)] loop:
    [setStreamingMessages(new Map())], [sessionId = ''],
    [currentEventType = '']. *)
Definition initial : Loop := mkLoop ∅ "" "" 0.

Definition is_getSession (e : Effect) : bool :=
  match e with GetSession _ => true | _ => false end.

(** A call of [startPolling]. *)
Definition is_polling (e : Effect) : Prop :=
  match e with StartPolling _ => True | _ => False end.

(** The session id that a trace leaves as the latest one set, starting from
    [current]. *)
Fixpoint announced (current : string) (tr : list Effect) : string :=
  match tr with
  | [] => current
  | SetCurrentSessionId s :: tr' => announced s tr'
  | _ :: tr' => announced current tr'
  end.

(** Every [getSession] request of the trace asks for the session id that
    the latest [setCurrentSessionId] before it set ([current] when there is
    none), and that id is not empty. *)
Fixpoint fetches_announced (current : string) (tr : list Effect) : Prop :=
  match tr with
  | [] => True
  | SetCurrentSessionId s :: tr' => fetches_announced s tr'
  | GetSession s :: tr' =>
      s = current ∧ s ≠ "" ∧ fetches_announced current tr'
  | _ :: tr' => fetches_announced current tr'
  end.


(** Number of [getSession] requests in a trace. *)
Definition fetches (tr : list Effect) : nat :=
  length (filter (λ e, is_getSession e = true) tr).

(** How reading ends: [done], or [reader.read()] rejects with an error of
    the given [name]. *)
Inductive ReadEnd := Done | ReadRejects (name : string).

(** What [fetch] gives. *)
Inductive Response :=
| FetchRejects (name : string)
| NotOk (status : Z)
| NullBody
| Body (chunks : list (string * string)) (fin : ReadEnd).

(** [status === 'completed' || status === 'failed']. *)
Definition is_terminal (s : SessionStatus) : bool :=
  match s with completed | failed => true | _ => false end.

(** How a call of [pollSessionUntilComplete] stands after some rounds: the
    promise is resolved with a session, rejected, or still pending. *)
Inductive PollResult :=
| Returns (session : WorkshopSession)
| Rejects
| StillPolling.

(** ** Event texts for the examples *)

Definition quote : string := String (ascii_of_nat 34) "".
Definition newline : string := String (ascii_of_nat 10) "".

Definition json_string (s : string) : string := quote +:+ s +:+ quote.
Definition json_field (name value : string) : string :=
  json_string name +:+ ":" +:+ value.

Definition json_tool_call (c : ToolCall) : string :=
  "{" +:+ String.concat "," [json_field "tool" (json_string (tool c));
                    json_field "input" (input c);
                    json_field "output" (json_string (output c))] +:+ "}".

(** The JSON text of a payload whose strings need no escaping. *)
Definition JSON_stringify (d : Data.t) : string :=
  "{" +:+ String.concat ","
    (omap (λ field, field)
      [(λ s, json_field "session_id" (json_string s)) <$> Data.session_id d;
       (λ s, json_field "agent_id" (json_string s)) <$> Data.agent_id d;
       (λ n : Z, json_field "round" (pretty n)) <$> Data.round d;
       (λ s, json_field "chunk" (json_string s)) <$> Data.chunk d;
       (λ s, json_field "content" (json_string s)) <$> Data.content d;
       (λ l, json_field "tool_calls"
               ("[" +:+ String.concat "," (json_tool_call <$> l) +:+ "]"))
         <$> Data.tool_calls d;
       (λ s, json_field "timestamp" (json_string s)) <$> Data.timestamp d;
       (λ s, json_field "error" (json_string s)) <$> Data.error d])
  +:+ "}".

(** [JSON.parse] on the texts of the listed payloads; every other text is
    taken to be malformed. *)
Definition parse_among (known : list Data.t) (text : string)
    : option Data.t :=
  List.find (λ d, String.eqb (JSON_stringify d) text) known.

(** One event as the relay writes it. *)
Definition sse (ty : string) (d : Data.t) : string :=
  "event: " +:+ ty +:+ newline +:+ "data: " +:+ JSON_stringify d
  +:+ newline +:+ newline.

Module Sample.
Definition session (st : SessionStatus) : WorkshopSession :=
  {| id := "s1"; notebook_id := "n1"; mode := "sequential";
     topic := "t"; status := st; messages := []; final_report := None;
     total_rounds := 1; agent_count := 2 |}.

(** A store that knows the session [s1]; it answers [in_progress] to the
    first [k] requests and [completed] from then on. *)
Definition getSession (k n : nat) (sid : string) : option WorkshopSession :=
  if String.eqb sid "s1"
  then Some (session (if (n <? k)%nat then in_progress else completed))
  else None.


(** A store that answers [in_progress] to the first [k] requests and
    rejects every later one. *)
Definition failing (k n : nat) (sid : string) : option WorkshopSession :=
  if (n <? k)%nat then Some (session in_progress) else None.

Definition agent (a : string) (r : Z) : Data.t :=
  Data.mk None (Some a) (Some r) None None None None None.
Definition delta (a : string) (r : Z) (c : string) : Data.t :=
  Data.mk None (Some a) (Some r) (Some c) None None None None.
Definition full (a : string) (r : Z) (c : string) : Data.t :=
  Data.mk None (Some a) (Some r) None (Some c) (Some []) None None.
Definition sid : Data.t :=
  Data.mk (Some "s1") None None None None None None None.
Definition err : Data.t :=
  Data.mk None None None None None None None (Some "boom").

Definition known : list Data.t :=
  [sid; err; agent "A" 1; delta "A" 1 "Hello"; delta "A" 1 " world";
   full "A" 1 "Hello world"; agent "B" 1; full "B" 1 "Ack"].

Definition JSON_parse : string → option Data.t := parse_among known.

(** The event sequence of the sequential two-agent scenario. *)
Definition scenario : string :=
  sse "session_created" sid
  +:+ sse "agent_start" (agent "A" 1)
  +:+ sse "agent_chunk" (delta "A" 1 "Hello")
  +:+ sse "agent_chunk" (delta "A" 1 " world")
  +:+ sse "agent_complete" (full "A" 1 "Hello world")
  +:+ sse "agent_start" (agent "B" 1)
  +:+ sse "agent_complete" (full "B" 1 "Ack")
  +:+ sse "session_complete" sid.
End Sample.

(** ** Records of the reducer that are consistent with their key *)

(** A record filed under [k] names the agent and round of [k], has the
    agent id for a name, and comes from an event that passed the guard
    [data.agent_id && data.round]. *)
Definition filed_under (k : string) (rec : Msg.t) : Prop :=
  k = key_of (Msg.agent_id rec) (Msg.round_number rec)
  ∧ Msg.agent_name rec = Msg.agent_id rec
  ∧ Msg.agent_id rec ≠ ""
  ∧ Msg.round_number rec ≠ 0.

(** Tool calls are attached to complete records only. *)
Definition tools_when_complete (rec : Msg.t) : Prop :=
  Msg.isComplete rec = false → Msg.tool_calls rec = None.

(** ** Quiz status groups (the quiz types at the end of use-workshop.ts) *)

Record QuizQuestion := {
  qq_id : string;
  qq_type : string;
  question : string;
  options : option (list string);
  correct_answer : string;
  explanation : option string;
  difficulty : string
}.

(** The [Quiz] interface.  [status] is what the JSON holds: any string, or
    nothing. *)
Module Quiz.
Record t := mk {
  id : string;
  title : string;
  quiz_type : string;
  question_count : Z;
  status : option string;
  created : string;
  updated : string;
  notebook_id : option string;
  source_ids : option (list string);
  note_ids : option (list string);
  questions : option (list QuizQuestion)
}.
End Quiz.

(** [QuizStatusGroups]. *)
Module Groups.
Record t := mk {
  running : list Quiz.t;
  completed : list Quiz.t;
  failed : list Quiz.t;
  pending : list Quiz.t
}.
End Groups.

Definition ACTIVE_QUIZ_STATUSES : list string :=
  ["running"; "pending"; "submitted"].

Definition FAILED_QUIZ_STATUSES : list string := ["failed"].

(** [array.includes(x)] on strings. *)
Definition includes (array : list string) (x : string) : bool :=
  existsb (String.eqb x) array.

(** [quiz.status || 'unknown']. *)
Definition status_of (quiz : Quiz.t) : string :=
  or_string (Quiz.status quiz) "unknown".

(** The callback of [quizzes.reduce]; [push] appends at the end. *)
Definition group_step (groups : Groups.t) (quiz : Quiz.t) : Groups.t :=
  let status := status_of quiz in
  if String.eqb status "running" then
    Groups.mk (Groups.running groups ++ [quiz]) (Groups.completed groups)
              (Groups.failed groups) (Groups.pending groups)
  else if String.eqb status "completed" then
    Groups.mk (Groups.running groups) (Groups.completed groups ++ [quiz])
              (Groups.failed groups) (Groups.pending groups)
  else if includes FAILED_QUIZ_STATUSES status then
    Groups.mk (Groups.running groups) (Groups.completed groups)
              (Groups.failed groups ++ [quiz]) (Groups.pending groups)
  else
    Groups.mk (Groups.running groups) (Groups.completed groups)
              (Groups.failed groups) (Groups.pending groups ++ [quiz]).

Definition groupQuizzesByStatus (quizzes : list Quiz.t) : Groups.t :=
  fold_left group_step quizzes (Groups.mk [] [] [] []).

(** The object that [calculateQuizStatusCounts] returns. *)
Module Counts.
Record t := mk {
  total : nat;
  running : nat;
  completed : nat;
  failed : nat;
  pending : nat
}.
End Counts.

Definition calculateQuizStatusCounts (quizzes : list Quiz.t) : Counts.t :=
  let groups := groupQuizzesByStatus quizzes in
  Counts.mk (length quizzes)
            (length (Groups.running groups))
            (length (Groups.completed groups))
            (length (Groups.failed groups))
            (length (Groups.pending groups)).

(** ** The message cards of [WorkshopMessages] (the component that shows a
    session and the streaming records) *)

(** The React key [`${message.agent_id}-${message.round_number}-${idx}`] of
    the card of a persisted message. *)
Definition card_key (message : AgentMessage) (idx : nat) : string :=
  am_agent_id message +:+ "-" +:+ pretty (am_round_number message)
  +:+ "-" +:+ pretty (Z.of_nat idx).

Definition is_in_progress (s : SessionStatus) : bool :=
  match s with in_progress => true | _ => false end.

(** [session.messages.map((message, idx) => ...)]: for each message its
    key, the message, and [enableTypewriter], which is
    [idx === session.messages.length - 1 && session.status === 'in_progress']. *)
Definition session_cards (session : WorkshopSession)
    : list (string * AgentMessage * bool) :=
  imap (λ idx message,
          (card_key message idx, message,
           (idx =? length (messages session) - 1)%nat
           && is_in_progress (status session)))
       (messages session).

(** ** The typewriter hook (frontend/src/lib/hooks/use-typewriter.ts) *)

(** The state of [useTypewriter]: the two React states, the index ref,
    whether the timer of [intervalRef] is running, and how often
    [onComplete] has been called. *)
Module Typewriter.
Record t := mk {
  displayedText : string;
  isTyping : bool;
  currentIndex : nat;
  timer : bool;
  completions : nat
}.

(** State at mount. *)
Definition mount : t := mk "" false 0 false 0.

(** The body of the [useEffect]. *)
Definition effect (text : string) (enabled : bool) (st : t) : t :=
  if negb enabled then
    mk text false (currentIndex st) (timer st) (completions st)
  else if negb (truthy_string text) then
    mk "" false 0 false (completions st)
  else
    mk "" true 0 true (completions st).

(** The clean-up function that the effect returns: [clearInterval]. *)
Definition cleanup (st : t) : t :=
  mk (displayedText st) (isTyping st) (currentIndex st) false
     (completions st).

(** The callback of [setInterval]; it runs only while the timer does.
    [onComplete] says whether the caller passed that callback. *)
Definition tick (text : string) (onComplete : bool) (st : t) : t :=
  if negb (timer st) then st
  else if (currentIndex st <? String.length text)%nat then
    mk (String.substring 0 (currentIndex st + 1) text) (isTyping st)
       (S (currentIndex st)) true (completions st)
  else
    mk (displayedText st) false (currentIndex st) false
       (if onComplete then S (completions st) else completions st).

(** [skip]. *)
Definition skip (text : string) (st : t) : t :=
  mk text false (String.length text) false (completions st).

(** [n] timer periods. *)
Fixpoint ticks (n : nat) (text : string) (onComplete : bool) (st : t) : t :=
  match n with
  | O => st
  | S n' => ticks n' text onComplete (tick text onComplete st)
  end.
End Typewriter.

Section Client.

(** [JSON.parse]: [None] when it throws. *)
Variable JSON_parse : string → option Data.t.

(** [getSession]: the answer to the [n]-th request of the client for a
    session id; [None] when the promise rejects. *)
Variable getSession : nat → string → option WorkshopSession.

(** The body of the [try] after [JSON.parse] succeeded.  Every branch but
    one ends in [currentEventType = '']; when [getSession] rejects, the
    exception leaves the [try] before the reset and is caught by the
    [catch] that logs parse errors. *)
Definition handle_data (now : string) (st : Loop) (data : Data.t)
    : Loop * list Effect :=
  let ty := currentEventType st in
  let msgs := reduce now ty data (streamingMessages st) in
  if String.eqb ty "session_created" && truthy (Data.session_id data) then
    let sid := or_string (Data.session_id data) "" in
    (mkLoop msgs sid "" (requests st), [SetCurrentSessionId sid])
  else if String.eqb ty "session_complete"
          && truthy (Data.session_id data) then
    if truthy_string (sessionId st) then
      match getSession (requests st) (sessionId st) with
      | Some finalSession =>
          (mkLoop msgs (sessionId st) "" (S (requests st)),
           [ToastSuccess "Discussion completed!";
            GetSession (sessionId st);
            SetQueryData (sessionId st) finalSession;
            RefetchSessions])
      | None =>
          (mkLoop msgs (sessionId st) ty (S (requests st)),
           [ToastSuccess "Discussion completed!";
            GetSession (sessionId st);
            ConsoleError "Error parsing SSE data:"])
      end
    else
      (mkLoop msgs (sessionId st) "" (requests st),
       [ToastSuccess "Discussion completed!"])
  else if String.eqb ty "error" && truthy (Data.error data) then
    (mkLoop msgs (sessionId st) "" (requests st),
     [ConsoleError "[SSE Frontend] Error event:";
      ToastError ("Streaming error: " +:+ or_string (Data.error data) "")])
  else
    (mkLoop msgs (sessionId st) "" (requests st), []).

(** The body of [for (const line of lines)]. *)
Definition process_line (now : string) (st : Loop) (line : string)
    : Loop * list Effect :=
  if startsWith line "event:" then
    (mkLoop (streamingMessages st) (sessionId st)
            (trim (substring_from 6 line)) (requests st), [])
  else if startsWith line "data:" then
    let dataStr := trim (substring_from 5 line) in
    if String.eqb dataStr "" then (st, [])
    else
      match JSON_parse dataStr with
      | Some data => handle_data now st data
      | None => (st, [ConsoleError "Error parsing SSE data:"])
      end
  else (st, []).

(** The [for] loop over the lines of one chunk. *)
Fixpoint process_lines (now : string) (st : Loop) (lines : list string)
    : Loop * list Effect :=
  match lines with
  | [] => (st, [])
  | line :: rest =>
      let '(st1, tr1) := process_line now st line in
      let '(st2, tr2) := process_lines now st1 rest in
      (st2, tr1 ++ tr2)
  end.

(** The [while (true)] loop over the chunks that [reader.read()] delivers
    before the stream ends; a chunk comes with the clock reading taken
    while it is handled. *)
Fixpoint read_loop (st : Loop) (chunks : list (string * string))
    : Loop * list Effect :=
  match chunks with
  | [] => (st, [])
  | (now, chunk) :: rest =>
      let '(st1, tr1) := process_lines now st (split_lines chunk) in
      let '(st2, tr2) := read_loop st1 rest in
      (st2, tr1 ++ tr2)
  end.

(** The outer [catch (error)].  [currentSessionId] is the React state the
    callback closed over when it was created. *)
Definition on_error (currentSessionId : option string) (name : string)
    : list Effect :=
  if String.eqb name "AbortError" then []
  else
    [ConsoleError "SSE error:";
     ToastError "Streaming error, falling back to polling..."]
    ++ match currentSessionId with
       | Some sid => if truthy_string sid then [StartPolling sid] else []
       | None => []
       end.

(** [createSessionWithStreaming] from [setIsStreaming(true)] on, that is
    after [stopStreaming()] has cleared what an earlier call left; the
    result is the state the loop ended in and the trace of the call. *)
Definition createSessionWithStreaming (currentSessionId : option string)
    (response : Response) : Loop * list Effect :=
  match response with
  | FetchRejects name =>
      (initial,
       [SetIsStreaming true] ++ on_error currentSessionId name
       ++ [SetIsStreaming false])
  | NotOk _ | NullBody =>
      (initial,
       [SetIsStreaming true] ++ on_error currentSessionId "Error"
       ++ [SetIsStreaming false])
  | Body chunks fin =>
      let '(st, tr) := read_loop initial chunks in
      (st,
       [SetIsStreaming true] ++ tr
       ++ match fin with
          | Done => []
          | ReadRejects name => on_error currentSessionId name
          end
       ++ [SetIsStreaming false])
  end.

(** ** Polling (frontend/src/lib/api/workshop.ts) *)

(** [poll] of [pollSessionUntilComplete]; [n] requests were sent before.
    The recursion of the source has no bound: [fuel] bounds the number of
    rounds looked at, and [StillPolling] is the answer when it runs out. *)
Fixpoint poll (fuel n : nat) (sessionId : string)
    (onUpdate : option (WorkshopSession → list Effect)) (pollInterval : Z)
    : PollResult * list Effect :=
  match fuel with
  | O => (StillPolling, [])
  | S fuel' =>
      match getSession n sessionId with
      | None => (Rejects, [GetSession sessionId])
      | Some session =>
          let upd := match onUpdate with Some f => f session | None => [] end in
          if is_terminal (status session) then
            (Returns session, GetSession sessionId :: upd)
          else
            let '(r, tr) := poll fuel' (S n) sessionId onUpdate pollInterval in
            (r, GetSession sessionId :: upd ++ Sleep pollInterval :: tr)
      end
  end.

(** [pollSessionUntilComplete(sessionId, onUpdate, pollInterval)] is
    [return poll()]. *)
Definition pollSessionUntilComplete := poll.

(** The two lines of an event with type tag [ty] whose payload parses to
    [data]. *)
Definition is_event (ty : string) (data : Data.t) (eline dline : string)
    : Prop :=
  startsWith eline "event:" = true
  ∧ trim (substring_from 6 eline) = ty
  ∧ startsWith dline "data:" = true
  ∧ trim (substring_from 5 dline) ≠ ""
  ∧ JSON_parse (trim (substring_from 5 dline)) = Some data.

(** A [data:] line whose payload [JSON.parse] rejects. *)
Definition malformed (line : string) : Prop :=
  startsWith line "data:" = true
  ∧ trim (substring_from 5 line) ≠ ""
  ∧ JSON_parse (trim (substring_from 5 line)) = None.

(** ** [startPolling] of the hook *)

(** The calls of [startPolling]: those of the loop, and [setIsPolling]. *)
Inductive HookEffect :=
| Call (e : Effect)
| SetIsPolling (b : bool).

(** The toast for the session that polling returned. *)
Definition final_toast (finalSession : WorkshopSession) : list HookEffect :=
  match status finalSession with
  | completed => [Call (ToastSuccess "Discussion completed!")]
  | failed => [Call (ToastError "Discussion failed, please retry")]
  | _ => []
  end.

(** [startPolling(sessionId)]; [isPolling] is the React state the callback
    closed over.  The result says whether the call has come to its end, and
    gives the trace so far. *)
Definition startPolling (isPolling : bool) (fuel n : nat)
    (sessionId : string) : bool * list HookEffect :=
  if isPolling then (true, [])
  else
    let '(res, tr) :=
      pollSessionUntilComplete fuel n sessionId
        (Some (λ updatedSession, [SetQueryData sessionId updatedSession]))
        3000 in
    match res with
    | Returns finalSession =>
        (true,
         SetIsPolling true :: map Call tr ++ final_toast finalSession
         ++ [SetIsPolling false; Call RefetchSessions])
    | Rejects =>
        (true,
         SetIsPolling true :: map Call tr
         ++ [Call (ToastError "Polling error, please refresh manually");
             Call (ConsoleError "Polling error:")]
         ++ [SetIsPolling false; Call RefetchSessions])
    | StillPolling => (false, SetIsPolling true :: map Call tr)
    end.

(** What one round of polling sends out for the session it fetched. *)
Definition round_trace (sessionId : string)
    (onUpdate : option (WorkshopSession → list Effect))
    (session : WorkshopSession) : list Effect :=
  GetSession sessionId
  :: match onUpdate with Some f => f session | None => [] end.

(** A toast, of either kind. *)
Definition is_toast (e : HookEffect) : bool :=
  match e with
  | Call (ToastSuccess _) | Call (ToastError _) => true
  | _ => false
  end.

(** Number of toasts in a trace of the hook. *)
Definition toasts (tr : list HookEffect) : nat :=
  length (filter (λ e, is_toast e = true) tr).

(** * Properties *)

(** ** Strings and truthiness *)

Lemma append_nil_r (s : string) : s +:+ "" = s.
Proof.
  induction s as [|c s IH]; [done|].
  change (String c (s +:+ "") = String c s). by rewrite IH.
Qed.

Lemma append_nil_l (s : string) : "" +:+ s = s.
Proof. done. Qed.

Lemma append_cons (c : ascii) (s t : string) :
  String c s +:+ t = String c (s +:+ t).
Proof. done. Qed.

Lemma append_assoc (s1 s2 s3 : string) :
  (s1 +:+ s2) +:+ s3 = s1 +:+ (s2 +:+ s3).
Proof.
  induction s1 as [|c s1 IH]; [done|].
  change (String c ((s1 +:+ s2) +:+ s3) = String c (s1 +:+ (s2 +:+ s3))).
  by rewrite IH.
Qed.

Lemma truthy_string_true (s : string) : truthy_string s = true ↔ s ≠ "".
Proof.
  unfold truthy_string. destruct (String.eqb_spec s ""); simpl; split;
    congruence.
Qed.

Lemma or_string_truthy (x : option string) (y s : string) :
  x = Some s → s ≠ "" → or_string x y = s.
Proof.
  intros -> Hs. unfold or_string.
  apply truthy_string_true in Hs. by rewrite Hs.
Qed.

Lemma or_string_absorb (x : option string) (y : string) :
  or_string x (or_string x y) = or_string x y.
Proof. unfold or_string. destruct x; [destruct (truthy_string _) |]; done. Qed.

Lemma keyed_Some (data : Data.t) (a : string) (r : Z) :
  keyed data = Some (a, r) →
  Data.agent_id data = Some a ∧ Data.round data = Some r ∧ a ≠ "" ∧ r ≠ 0.
Proof.
  unfold keyed. destruct (Data.agent_id data) as [a'|]; [|done].
  destruct (Data.round data) as [r'|]; [|done].
  destruct (truthy_string a') eqn:Ha; [|done].
  destruct (truthy_number r') eqn:Hr; [|done]. simpl.
  intros [= <- <-]. apply truthy_string_true in Ha.
  unfold truthy_number in Hr. repeat split; [done | lia].
Qed.

(** ** The updaters, key by key *)

Lemma session_complete_update_fmap (m : gmap string Msg.t) :
  session_complete_update m = mark_complete <$> m.
Proof.
  unfold session_complete_update.
  assert (∀ b : gmap string Msg.t,
    map_fold (λ key msg newMap, <[key := mark_complete msg]> newMap) b m
    = (mark_complete <$> m) ∪ b) as ->.
  { intros b.
    apply (map_fold_weak_ind (λ res m', res = (mark_complete <$> m') ∪ b)).
    - by rewrite fmap_empty, (left_id_L ∅ (∪)).
    - intros i x m' res _ ->. by rewrite fmap_insert, insert_union_l. }
  apply map_eq. intros k. rewrite lookup_union, !lookup_fmap.
  by destruct (m !! k).
Qed.

Lemma session_complete_update_lookup (m : gmap string Msg.t) (k : string) :
  session_complete_update m !! k = mark_complete <$> m !! k.
Proof. by rewrite session_complete_update_fmap, lookup_fmap. Qed.

(** Case analysis on whether [k] is the key an updater writes. *)
Ltac by_key k key :=
  destruct (decide (k = key)) as [->|];
  repeat case_match; simplify_map_eq; try done.

Lemma agent_start_update_other now a r (m : gmap string Msg.t) k :
  k ≠ key_of a r → agent_start_update now a r m !! k = m !! k.
Proof. intros. unfold agent_start_update. by_key k (key_of a r). Qed.

Lemma agent_chunk_update_other now a r c (m : gmap string Msg.t) k :
  k ≠ key_of a r → agent_chunk_update now a r c m !! k = m !! k.
Proof. intros. unfold agent_chunk_update. by_key k (key_of a r). Qed.

Lemma agent_complete_update_other now a r d (m : gmap string Msg.t) k :
  k ≠ key_of a r → agent_complete_update now a r d m !! k = m !! k.
Proof. intros. unfold agent_complete_update. by_key k (key_of a r). Qed.

Lemma agent_start_update_local now a r (m1 m2 : gmap string Msg.t) k :
  m1 !! k = m2 !! k →
  agent_start_update now a r m1 !! k = agent_start_update now a r m2 !! k.
Proof. intros. unfold agent_start_update. by_key k (key_of a r); congruence. Qed.

Lemma agent_chunk_update_local now a r c (m1 m2 : gmap string Msg.t) k :
  m1 !! k = m2 !! k →
  agent_chunk_update now a r c m1 !! k = agent_chunk_update now a r c m2 !! k.
Proof. intros. unfold agent_chunk_update. by_key k (key_of a r); congruence. Qed.

Lemma agent_complete_update_local now a r d (m1 m2 : gmap string Msg.t) k :
  m1 !! k = m2 !! k →
  agent_complete_update now a r d m1 !! k
  = agent_complete_update now a r d m2 !! k.
Proof.
  intros. unfold agent_complete_update. by_key k (key_of a r); congruence.
Qed.

(** ** One step of the reducer *)

(** Case analysis on the event type, along the [if / else if] chain. *)
Ltac by_type ty :=
  unfold reduce;
  destruct (String.eqb_spec ty "agent_start") as [->|];
  [|destruct (String.eqb_spec ty "agent_chunk") as [->|];
    [|destruct (String.eqb_spec ty "agent_complete") as [->|];
      [|destruct (String.eqb_spec ty "session_complete") as [->|]]]].

(** The record under a key after a step depends on the record under that
    key before the step only. *)
Lemma reduce_local now ty data (m1 m2 : gmap string Msg.t) k :
  m1 !! k = m2 !! k →
  reduce now ty data m1 !! k = reduce now ty data m2 !! k.
Proof.
  intros Hk. by_type ty.
  - destruct (keyed data) as [[a r]|]; [|done].
    by apply agent_start_update_local.
  - destruct (keyed data) as [[a r]|], (Data.chunk data) as [c|]; try done.
    destruct (truthy_string c); [|done].
    by apply agent_chunk_update_local.
  - destruct (keyed data) as [[a r]|]; [|done].
    by apply agent_complete_update_local.
  - destruct (truthy _); [|done].
    by rewrite !session_complete_update_lookup, Hk.
  - done.
Qed.

(** An agent event leaves the records under all other keys alone. *)
Lemma reduce_frame now ty data a r (m : gmap string Msg.t) k :
  agent_event ty = true →
  Data.agent_id data = Some a → Data.round data = Some r →
  k ≠ key_of a r →
  reduce now ty data m !! k = m !! k.
Proof.
  intros Hty Ha Hr Hk.
  assert (∀ a' r', keyed data = Some (a', r') → a' = a ∧ r' = r) as Hkey.
  { intros a' r' H. apply keyed_Some in H as (? & ? & _). split; congruence. }
  by_type ty.
  - destruct (keyed data) as [[a' r']|] eqn:E; [|done].
    destruct (Hkey _ _ eq_refl) as [-> ->].
    by apply agent_start_update_other.
  - destruct (keyed data) as [[a' r']|] eqn:E, (Data.chunk data) as [c|];
      try done.
    destruct (Hkey _ _ eq_refl) as [-> ->].
    destruct (truthy_string c); [|done].
    by apply agent_chunk_update_other.
  - destruct (keyed data) as [[a' r']|] eqn:E; [|done].
    destruct (Hkey _ _ eq_refl) as [-> ->].
    by apply agent_complete_update_other.
  - done.
  - done.
Qed.

(** No step removes a key, and no step clears a completion flag. *)
Lemma reduce_mono now ty data (m : gmap string Msg.t) k rec :
  m !! k = Some rec →
  ∃ rec', reduce now ty data m !! k = Some rec'
          ∧ (Msg.isComplete rec = true → Msg.isComplete rec' = true).
Proof.
  intros Hk. by_type ty.
  - destruct (keyed data) as [[a r]|]; [|by eauto].
    unfold agent_start_update. by_key k (key_of a r); eauto.
  - destruct (keyed data) as [[a r]|], (Data.chunk data) as [c|]; eauto.
    destruct (truthy_string c); [|by eauto].
    unfold agent_chunk_update. by_key k (key_of a r); eauto.
  - destruct (keyed data) as [[a r]|]; [|by eauto].
    unfold agent_complete_update. by_key k (key_of a r); eauto.
  - destruct (truthy _); [|by eauto].
    rewrite session_complete_update_lookup, Hk. simpl. eauto.
  - eauto.
Qed.

(** ** Runs of the reducer *)

Lemma reduce_all_cons now ty data events (m : gmap string Msg.t) :
  reduce_all ((now, ty, data) :: events) m
  = reduce_all events (reduce now ty data m).
Proof. done. Qed.

Lemma reduce_all_app events1 events2 (m : gmap string Msg.t) :
  reduce_all (events1 ++ events2) m
  = reduce_all events2 (reduce_all events1 m).
Proof. unfold reduce_all. apply fold_left_app. Qed.

Lemma reduce_all_mono events (m : gmap string Msg.t) k rec :
  m !! k = Some rec →
  ∃ rec', reduce_all events m !! k = Some rec'
          ∧ (Msg.isComplete rec = true → Msg.isComplete rec' = true).
Proof.
  revert m rec. induction events as [|[[now ty] data] events IH];
    intros m rec Hk.
  - exists rec. done.
  - rewrite reduce_all_cons.
    destruct (reduce_mono now ty data m k rec Hk) as (rec1 & H1 & Hc1).
    destruct (IH _ _ H1) as (rec2 & H2 & Hc2).
    exists rec2. split; [done | auto].
Qed.

(** ** The key string determines the agent and the round *)

Lemma dash_free_app_dash (x y : string) : ¬ dash_free (x +:+ "-" +:+ y).
Proof.
  induction x as [|c x IH].
  - intros [H _]. done.
  - intros [_ H]. by apply IH.
Qed.

Lemma pretty_N_char_no_dash (x : N) : pretty_N_char x ≠ "-"%char.
Proof. unfold pretty_N_char. by repeat case_match. Qed.

Lemma pretty_N_go_dash_free (x : N) (s : string) :
  dash_free s → dash_free (pretty_N_go x s).
Proof.
  revert s. induction (N.lt_wf_0 x) as [x _ IH]; intros s Hs.
  assert (x = 0 ∨ 0 < x)%N as [->|?] by lia.
  - by rewrite pretty_N_go_0.
  - rewrite pretty_N_go_step by done. apply IH.
    + by apply N.div_lt.
    + split; [apply pretty_N_char_no_dash | done].
Qed.

Lemma pretty_Z_dash_free (r : Z) : 0 ≤ r → dash_free (pretty r).
Proof.
  destruct r as [|p|p]; [done | | lia]. intros _.
  change (dash_free (pretty (N.pos p))).
  unfold pretty, pretty_N. case_decide; [done|].
  by apply pretty_N_go_dash_free.
Qed.

Lemma split_at_last_dash (a1 a2 d1 d2 : string) :
  dash_free d1 → dash_free d2 →
  a1 +:+ "-" +:+ d1 = a2 +:+ "-" +:+ d2 → a1 = a2 ∧ d1 = d2.
Proof.
  intros H1 H2. revert a2.
  induction a1 as [|c1 a1 IH]; intros [|c2 a2] Heq;
    rewrite ?append_cons, ?append_nil_l in Heq.
  - by injection Heq as ->.
  - injection Heq as <- ->. by destruct (dash_free_app_dash a2 d2).
  - injection Heq as -> <-. by destruct (dash_free_app_dash a1 d1).
  - injection Heq as -> Heq. by destruct (IH _ Heq) as [-> ->].
Qed.

Lemma key_of_inj (a1 a2 : string) (r1 r2 : Z) :
  0 ≤ r1 → 0 ≤ r2 → key_of a1 r1 = key_of a2 r2 → a1 = a2 ∧ r1 = r2.
Proof.
  intros H1 H2 Heq. unfold key_of in Heq.
  apply split_at_last_dash in Heq as [-> Hr];
    [|by apply pretty_Z_dash_free..].
  split; [done|]. by apply (inj pretty).
Qed.

(** The bound on the rounds is needed: with a negative round two pairs can
    share a key. *)
Example key_of_negative_round : key_of "a" (-1) = key_of "a-" 1.
Proof. reflexivity. Qed.

Lemma keyed_fields (data : Data.t) (a : string) (r : Z) :
  Data.agent_id data = Some a → Data.round data = Some r →
  a ≠ "" → r ≠ 0 → keyed data = Some (a, r).
Proof.
  intros Ha Hr Hane Hrne. unfold keyed. rewrite Ha, Hr.
  apply truthy_string_true in Hane. rewrite Hane.
  unfold truthy_number. by destruct (Z.eqb_spec r 0).
Qed.

(** ** Content accumulated by the fragments of one key *)

Lemma fragment_content now ty data a r (m : gmap string Msg.t) :
  a ≠ "" → r ≠ 0 → fragment_for a r (now, ty, data) →
  content_at (reduce now ty data m) (key_of a r)
  = content_at m (key_of a r)
    +:+ (if String.eqb ty "agent_chunk" then or_string (Data.chunk data) ""
         else "").
Proof.
  intros Ha Hr (Hty & Hda & Hdr).
  pose proof (keyed_fields data a r Hda Hdr Ha Hr) as Hk.
  unfold reduce, content_at. destruct Hty as [-> | ->]; simpl; rewrite Hk.
  - unfold agent_start_update.
    destruct (m !! key_of a r) as [e|] eqn:E.
    + by rewrite E, append_nil_r.
    + by rewrite lookup_insert_eq.
  - unfold or_string. destruct (Data.chunk data) as [c|].
    + destruct (truthy_string c).
      * unfold agent_chunk_update.
        destruct (m !! key_of a r) as [e|] eqn:E;
          by rewrite lookup_insert_eq.
      * by rewrite append_nil_r.
    + by rewrite append_nil_r.
Qed.

Lemma fragments_content a r pre (m : gmap string Msg.t) :
  a ≠ "" → r ≠ 0 → Forall (fragment_for a r) pre →
  content_at (reduce_all pre m) (key_of a r)
  = content_at m (key_of a r) +:+ chunks_of pre.
Proof.
  intros Ha Hr Hpre. revert m.
  induction Hpre as [|[[now ty] data] pre Hev _ IH]; intros m.
  - by rewrite append_nil_r.
  - rewrite reduce_all_cons, IH, (fragment_content _ _ _ a r) by done.
    by rewrite append_assoc.
Qed.

Lemma agent_complete_lookup now data a r (m : gmap string Msg.t) :
  keyed data = Some (a, r) →
  ∃ rec, reduce now "agent_complete" data m !! key_of a r = Some rec
    ∧ Msg.content rec
      = or_string (Data.content data) (content_at m (key_of a r))
    ∧ Msg.tool_calls rec = Some (or_empty (Data.tool_calls data))
    ∧ Msg.isComplete rec = true.
Proof.
  intros Hk. unfold reduce, content_at. simpl. rewrite Hk.
  unfold agent_complete_update.
  destruct (m !! key_of a r) as [e|] eqn:E; rewrite lookup_insert_eq; eauto.
Qed.

(** ** Interleaved runs *)

Lemma interleave_sym {A} (l1 l2 l : list A) :
  Interleave l1 l2 l → Interleave l2 l1 l.
Proof. induction 1; by constructor. Qed.

Lemma interleave_left a r (k : string) la lb l :
  Interleave la lb l →
  Forall (event_for a r) lb → k ≠ key_of a r →
  ∀ m m' : gmap string Msg.t, m !! k = m' !! k →
    reduce_all l m !! k = reduce_all la m' !! k.
Proof.
  intros Hl. induction Hl as [|[[now ty] data] la lb l _ IH
                              |[[now ty] data] la lb l _ IH];
    intros Hb Hk m m' Hm.
  - done.
  - rewrite !reduce_all_cons. apply IH; [done..|]. by apply reduce_local.
  - rewrite reduce_all_cons. apply Forall_cons in Hb as [(Hty & Ha & Hr) Hb].
    apply IH; [done..|]. rewrite <- Hm. by eapply reduce_frame.
Qed.

(** * The claims *)

(** C1, as amended.  After any sequence of [agent_start] and [agent_chunk]
    events for one key, followed by an [agent_complete] event for that key,
    the record of the key is complete and its content is
    [data.content || accumulated]: the content of the payload when that is a
    non-empty string, however many chunks came before, and the content
    accumulated so far (what the state held for the key, followed by the
    deltas) when the payload's content is empty or absent. *)
Theorem C1_complete_content (a : string) (r : Z) (pre : list Event)
    (now : string) (data : Data.t) (m : gmap string Msg.t) :
  Forall (fragment_for a r) pre →
  keyed data = Some (a, r) →
  ∃ rec,
    reduce_all (pre ++ [(now, "agent_complete", data)]) m !! key_of a r
    = Some rec
    ∧ Msg.isComplete rec = true
    ∧ Msg.content rec
      = or_string (Data.content data)
          (content_at m (key_of a r) +:+ chunks_of pre)
    ∧ (∀ c, Data.content data = Some c → c ≠ "" → Msg.content rec = c).
Proof.
  intros Hpre Hk.
  destruct (keyed_Some _ _ _ Hk) as (_ & _ & Ha & Hr).
  rewrite reduce_all_app. cbn [reduce_all fold_left].
  destruct (agent_complete_lookup now data a r (reduce_all pre m) Hk)
    as (rec & Hrec & Hc & _ & Hdone).
  exists rec. rewrite fragments_content in Hc by done.
  repeat split; [done..|].
  intros c Hdc Hne. rewrite Hc. by apply or_string_truthy.
Qed.

(** C2, as amended.  Once an [agent_complete] for a key has been processed,
    the record of the key stays in the map with its completion flag set
    under every later sequence of events, and a later [agent_start] for the
    key changes nothing.  The record is not frozen: a later [agent_chunk]
    for the key appends its delta to the content (tool calls and flag
    untouched), and a later [agent_complete] sets content and tool calls
    from its own payload. *)
Theorem C2_after_complete (now0 : string) (data0 : Data.t) (a : string)
    (r : Z) (m0 : gmap string Msg.t) :
  keyed data0 = Some (a, r) →
  ∃ rec,
    reduce now0 "agent_complete" data0 m0 !! key_of a r = Some rec
    ∧ Msg.isComplete rec = true
    ∧ (∀ events, ∃ rec',
         reduce_all events (reduce now0 "agent_complete" data0 m0)
           !! key_of a r = Some rec'
         ∧ Msg.isComplete rec' = true)
    ∧ (∀ now data, keyed data = Some (a, r) →
         reduce now "agent_start" data
           (reduce now0 "agent_complete" data0 m0)
         = reduce now0 "agent_complete" data0 m0)
    ∧ (∀ now data c, keyed data = Some (a, r) →
         Data.chunk data = Some c → c ≠ "" →
         reduce now "agent_chunk" data
           (reduce now0 "agent_complete" data0 m0) !! key_of a r
         = Some (Msg.mk (Msg.agent_id rec) (Msg.agent_name rec)
                   (Msg.content rec +:+ c) (Msg.round_number rec) now
                   true (Msg.tool_calls rec)))
    ∧ (∀ now data, keyed data = Some (a, r) →
         reduce now "agent_complete" data
           (reduce now0 "agent_complete" data0 m0) !! key_of a r
         = Some (Msg.mk (Msg.agent_id rec) (Msg.agent_name rec)
                   (or_string (Data.content data) (Msg.content rec))
                   (Msg.round_number rec)
                   (or_string (Data.timestamp data) (Msg.timestamp rec))
                   true
                   (Some (or_empty (Data.tool_calls data))))).
Proof.
  intros Hk.
  destruct (agent_complete_lookup now0 data0 a r m0 Hk)
    as (rec & Hrec & _ & _ & Hdone).
  set (m := reduce now0 "agent_complete" data0 m0) in *.
  exists rec. split; [done|]. split; [done|]. repeat split.
  - intros events.
    destruct (reduce_all_mono events m _ _ Hrec) as (rec' & H1 & H2).
    exists rec'. auto.
  - intros now data Hd. unfold reduce. simpl. rewrite Hd.
    unfold agent_start_update. by rewrite Hrec.
  - intros now data c Hd Hc Hne. unfold reduce. simpl. rewrite Hd, Hc.
    apply truthy_string_true in Hne. rewrite Hne.
    unfold agent_chunk_update. by rewrite Hrec, lookup_insert_eq, Hdone.
  - intros now data Hd. unfold reduce at 1. simpl. rewrite Hd.
    unfold agent_complete_update. by rewrite Hrec, lookup_insert_eq.
Qed.

(** C5.  A second [agent_start], or a second [agent_complete], with the same
    payload leaves the map as the first one made it, whatever the clock
    shows at either time. *)
Theorem C5_replay_is_noop (now1 now2 : string) (data : Data.t)
    (m : gmap string Msg.t) :
  reduce now2 "agent_start" data (reduce now1 "agent_start" data m)
  = reduce now1 "agent_start" data m
  ∧ reduce now2 "agent_complete" data (reduce now1 "agent_complete" data m)
    = reduce now1 "agent_complete" data m.
Proof.
  unfold reduce. simpl. destruct (keyed data) as [[a r]|]; [|done]. split.
  - unfold agent_start_update.
    destruct (m !! key_of a r) eqn:E; [by rewrite E|].
    by rewrite lookup_insert_eq.
  - unfold agent_complete_update.
    destruct (m !! key_of a r) eqn:E; rewrite lookup_insert_eq; simpl;
      by rewrite insert_insert_eq, !or_string_absorb.
Qed.

(** C6.  Two distinct (agent id, round) pairs with rounds that are not
    negative: in every interleaving of a list of agent events for the first
    and a list for the second, each key ends with the record it gets when its
    own list is processed alone from the same state. *)
Theorem C6_keys_independent (a1 a2 : string) (r1 r2 : Z)
    (l1 l2 l : list Event) (m : gmap string Msg.t) :
  (a1, r1) ≠ (a2, r2) → 0 ≤ r1 → 0 ≤ r2 →
  Forall (event_for a1 r1) l1 → Forall (event_for a2 r2) l2 →
  Interleave l1 l2 l →
  reduce_all l m !! key_of a1 r1 = reduce_all l1 m !! key_of a1 r1
  ∧ reduce_all l m !! key_of a2 r2 = reduce_all l2 m !! key_of a2 r2.
Proof.
  intros Hne Hr1 Hr2 H1 H2 Hl.
  assert (key_of a1 r1 ≠ key_of a2 r2) as Hk.
  { intros Heq. apply key_of_inj in Heq as [-> ->]; done. }
  split.
  - by eapply interleave_left.
  - eapply interleave_left; [by apply interleave_sym | done | done | done].
Qed.

(** C7, as amended.  For a key with no record: an [agent_chunk] event with
    a non-empty delta creates a record seeded with that delta and not
    complete, while one whose delta is empty or absent is ignored; an
    [agent_complete] event creates the record from its payload (content,
    tool calls, complete). *)
Theorem C7_out_of_order (now : string) (data : Data.t) (a : string) (r : Z)
    (m : gmap string Msg.t) :
  keyed data = Some (a, r) →
  m !! key_of a r = None →
  (∀ c, Data.chunk data = Some c → c ≠ "" →
     reduce now "agent_chunk" data m !! key_of a r
     = Some (Msg.mk a a c r now false None))
  ∧ (truthy (Data.chunk data) = false →
     reduce now "agent_chunk" data m = m)
  ∧ reduce now "agent_complete" data m !! key_of a r
    = Some (Msg.mk a a (or_string (Data.content data) "") r
              (or_string (Data.timestamp data) now) true
              (Some (or_empty (Data.tool_calls data)))).
Proof.
  intros Hk Hm. unfold reduce. simpl. rewrite Hk. repeat split.
  - intros c -> Hne. apply truthy_string_true in Hne. rewrite Hne.
    unfold agent_chunk_update. by rewrite Hm, lookup_insert_eq.
  - unfold truthy. destruct (Data.chunk data) as [c|]; [|done].
    by intros ->.
  - unfold agent_complete_update. by rewrite Hm, lookup_insert_eq.
Qed.

(** ** The loop, line by line *)

Lemma data_line_not_event_line (line : string) :
  startsWith line "data:" = true → startsWith line "event:" = false.
Proof.
  unfold startsWith. destruct line as [|c line]; [done|].
  cbn [String.prefix]. destruct (ascii_dec "d" c) as [<-|]; [|done].
  intros _. by destruct (ascii_dec "e" "d").
Qed.

Lemma handle_data_messages now st data :
  streamingMessages (fst (handle_data now st data))
  = reduce now (currentEventType st) data (streamingMessages st).
Proof. unfold handle_data. by repeat case_match. Qed.

Lemma process_line_malformed now st line :
  malformed line →
  process_line now st line = (st, [ConsoleError "Error parsing SSE data:"]).
Proof.
  intros (Hd & Hne & Hp). unfold process_line.
  rewrite (data_line_not_event_line _ Hd), Hd, Hp.
  by destruct (String.eqb_spec (trim (substring_from 5 line)) "").
Qed.

Lemma process_line_inert now st line :
  inert line → process_line now st line = (st, []).
Proof.
  intros [He Hd]. unfold process_line. rewrite He.
  destruct Hd as [-> | ->]; [done|]. by destruct (startsWith line "data:").
Qed.

Lemma process_lines_event now st ty data eline dline :
  is_event ty data eline dline →
  process_lines now st [eline; dline]
  = handle_data now
      (mkLoop (streamingMessages st) (sessionId st) ty (requests st)) data.
Proof.
  intros (He & Hty & Hd & Hne & Hp).
  cbn [process_lines]. unfold process_line at 1.
  rewrite He, Hty. unfold process_line.
  rewrite (data_line_not_event_line _ Hd), Hd, Hp.
  destruct (String.eqb_spec (trim (substring_from 5 dline)) ""); [done|].
  destruct (handle_data _ _ _). by rewrite app_nil_r.
Qed.

Lemma process_lines_app now st l1 l2 :
  process_lines now st (l1 ++ l2)
  = let '(st1, tr1) := process_lines now st l1 in
    let '(st2, tr2) := process_lines now st1 l2 in
    (st2, tr1 ++ tr2).
Proof.
  revert st. induction l1 as [|line l1 IH]; intros st; simpl.
  - by destruct (process_lines now st l2).
  - destruct (process_line now st line) as [st1 tr1]. rewrite IH.
    destruct (process_lines now st1 l1) as [st2 tr2].
    destruct (process_lines now st2 l2) as [st3 tr3].
    by rewrite app_assoc.
Qed.

Lemma read_loop_app st chunks1 chunks2 :
  read_loop st (chunks1 ++ chunks2)
  = let '(st1, tr1) := read_loop st chunks1 in
    let '(st2, tr2) := read_loop st1 chunks2 in
    (st2, tr1 ++ tr2).
Proof.
  revert st. induction chunks1 as [|[now chunk] chunks1 IH]; intros st; simpl.
  - by destruct (read_loop st chunks2).
  - destruct (process_lines now st (split_lines chunk)) as [st1 tr1].
    rewrite IH.
    destruct (read_loop st1 chunks1) as [st2 tr2].
    destruct (read_loop st2 chunks2) as [st3 tr3].
    by rewrite app_assoc.
Qed.

(** ** Keys and completion flags along the loop *)

Lemma grows_refl m : grows m m.
Proof. intros k rec H. eauto. Qed.

Lemma grows_trans m1 m2 m3 : grows m1 m2 → grows m2 m3 → grows m1 m3.
Proof.
  intros H12 H23 k rec H.
  destruct (H12 _ _ H) as (rec2 & H2 & Hc2).
  destruct (H23 _ _ H2) as (rec3 & H3 & Hc3). eauto.
Qed.

Lemma process_line_grows now st line :
  grows (streamingMessages st)
        (streamingMessages (fst (process_line now st line))).
Proof.
  unfold process_line. repeat case_match; try apply grows_refl.
  rewrite handle_data_messages. intros k rec Hk. by apply reduce_mono.
Qed.

Lemma process_lines_grows now st lines :
  grows (streamingMessages st)
        (streamingMessages (fst (process_lines now st lines))).
Proof.
  revert st. induction lines as [|line lines IH]; intros st; simpl.
  - apply grows_refl.
  - pose proof (process_line_grows now st line) as H1.
    destruct (process_line now st line) as [st1 tr1].
    pose proof (IH st1) as H2.
    destruct (process_lines now st1 lines) as [st2 tr2].
    by eapply grows_trans.
Qed.

Lemma read_loop_grows st chunks :
  grows (streamingMessages st)
        (streamingMessages (fst (read_loop st chunks))).
Proof.
  revert st. induction chunks as [|[now chunk] chunks IH]; intros st; simpl.
  - apply grows_refl.
  - pose proof (process_lines_grows now st (split_lines chunk)) as H1.
    destruct (process_lines now st (split_lines chunk)) as [st1 tr1].
    pose proof (IH st1) as H2.
    destruct (read_loop st1 chunks) as [st2 tr2].
    by eapply grows_trans.
Qed.

(** ** What the loop sends out *)

Lemma handle_data_no_polling now st data :
  Forall (λ e, ¬ is_polling e) (snd (handle_data now st data)).
Proof.
  unfold handle_data. repeat case_match; simpl;
    repeat (apply Forall_cons; split; [by intros []|]); by apply Forall_nil.
Qed.

Lemma process_line_no_polling now st line :
  Forall (λ e, ¬ is_polling e) (snd (process_line now st line)).
Proof.
  unfold process_line. repeat case_match; simpl;
    try apply handle_data_no_polling;
    repeat (apply Forall_cons; split; [by intros []|]); by apply Forall_nil.
Qed.

Lemma process_lines_no_polling now st lines :
  Forall (λ e, ¬ is_polling e) (snd (process_lines now st lines)).
Proof.
  revert st. induction lines as [|line lines IH]; intros st; simpl.
  - by apply Forall_nil.
  - pose proof (process_line_no_polling now st line) as H1.
    destruct (process_line now st line) as [st1 tr1].
    pose proof (IH st1) as H2.
    destruct (process_lines now st1 lines) as [st2 tr2].
    apply Forall_app. split; assumption.
Qed.

Lemma read_loop_no_polling st chunks :
  Forall (λ e, ¬ is_polling e) (snd (read_loop st chunks)).
Proof.
  revert st. induction chunks as [|[now chunk] chunks IH]; intros st; simpl.
  - by apply Forall_nil.
  - pose proof (process_lines_no_polling now st (split_lines chunk)) as H1.
    destruct (process_lines now st (split_lines chunk)) as [st1 tr1].
    pose proof (IH st1) as H2.
    destruct (read_loop st1 chunks) as [st2 tr2].
    apply Forall_app. split; assumption.
Qed.

Lemma on_error_polls_closed_over_id cur name sid :
  StartPolling sid ∈ on_error cur name → cur = Some sid.
Proof.
  unfold on_error. destruct (String.eqb name "AbortError").
  { intros H. by apply elem_of_nil in H. }
  simpl. rewrite !elem_of_cons. intros [?|[?|H]]; [done..|].
  destruct cur as [s|]; [|by apply elem_of_nil in H].
  destruct (truthy_string s).
  - apply list_elem_of_singleton in H. by injection H as ->.
  - by apply elem_of_nil in H.
Qed.

(** The only session the fallback can poll is the one whose id the callback
    closed over: the id that [session_created] delivers on this stream goes
    to [setCurrentSessionId] and to the local [sessionId], and neither is
    read by the [catch]. *)
Lemma fallback_polls_closed_over_id cur response sid :
  StartPolling sid ∈ snd (createSessionWithStreaming cur response) →
  cur = Some sid.
Proof.
  assert (∀ name tr,
    Forall (λ e, ¬ is_polling e) tr →
    StartPolling sid
      ∈ [SetIsStreaming true] ++ tr ++ on_error cur name
        ++ [SetIsStreaming false] → cur = Some sid) as Hcatch.
  { intros name tr Hno.
    rewrite !elem_of_app, !list_elem_of_singleton.
    intros [?|[H|[H|?]]]; [done| | |done].
    - rewrite Forall_forall in Hno. by destruct (Hno _ H).
    - by eapply on_error_polls_closed_over_id. }
  unfold createSessionWithStreaming.
  destruct response as [name| status | | chunks fin].
  - apply (Hcatch name []). by apply Forall_nil.
  - apply (Hcatch "Error" []). by apply Forall_nil.
  - apply (Hcatch "Error" []). by apply Forall_nil.
  - pose proof (read_loop_no_polling initial chunks) as Hno.
    destruct (read_loop initial chunks) as [st tr]. cbn [snd] in *.
    destruct fin as [|name]; [|by apply Hcatch].
    rewrite !elem_of_app, !list_elem_of_singleton.
    intros [?|[H|[H|?]]]; [done| | |done].
    + rewrite Forall_forall in Hno. by destruct (Hno _ H).
    + by apply elem_of_nil in H.
Qed.

(** ** Polling *)

(** When the store answers with sessions that are not terminal to the
    requests [n], ..., [n + k - 1] and with a terminal session to request
    [n + k], polling returns that session, given fuel for [k + 1] rounds. *)
Lemma poll_returns_first_terminal sid onUpdate interval k :
  ∀ n fuel session,
  (∀ i, (i < k)%nat →
     ∃ s, getSession (n + i)%nat sid = Some s
          ∧ is_terminal (status s) = false) →
  getSession (n + k)%nat sid = Some session →
  is_terminal (status session) = true →
  (k < fuel)%nat →
  fst (poll fuel n sid onUpdate interval) = Returns session.
Proof.
  induction k as [|k IH]; intros n fuel session Hpre Hk Hterm Hfuel.
  - destruct fuel as [|fuel]; [lia|]. simpl.
    rewrite Nat.add_0_r in Hk. by rewrite Hk, Hterm.
  - destruct fuel as [|fuel]; [lia|]. simpl.
    destruct (Hpre 0%nat) as (s & Hs & Hnt); [lia|].
    rewrite Nat.add_0_r in Hs. rewrite Hs, Hnt.
    specialize (IH (S n) fuel session).
    destruct (poll fuel (S n) sid onUpdate interval) as [res tr] eqn:E.
    simpl in *. apply IH; [| |done|lia].
    + intros i Hi. destruct (Hpre (S i)) as (s' & Hs' & Hnt'); [lia|].
      exists s'. split; [|done]. rewrite <- Hs'. f_equal. lia.
    + rewrite <- Hk. f_equal. lia.
Qed.

(** Polling has no bound of its own: against a store that never answers
    with a terminal session it is still pending after any number of
    rounds. *)
Lemma poll_pending_while_not_terminal sid onUpdate interval fuel :
  ∀ n,
  (∀ i, ∃ s, getSession (n + i)%nat sid = Some s
             ∧ is_terminal (status s) = false) →
  fst (poll fuel n sid onUpdate interval) = StillPolling.
Proof.
  induction fuel as [|fuel IH]; intros n Hall; [done|]. simpl.
  destruct (Hall 0%nat) as (s & Hs & Hnt).
  rewrite Nat.add_0_r in Hs. rewrite Hs, Hnt.
  specialize (IH (S n)).
  destruct (poll fuel (S n) sid onUpdate interval) as [res tr].
  simpl in *. apply IH. intros i.
  destruct (Hall (S i)) as (s' & Hs' & Hnt').
  exists s'. split; [|done]. rewrite <- Hs'. f_equal. lia.
Qed.

(** ** The claims about the loop *)

(** C3, as amended.  The loop has no exit at a terminal event: it ends when
    the transport reports the end of the stream.  Whatever the chunks read
    so far contain, a [session_complete] or an [error] event included, the
    chunks that follow are processed from the state reached, and their
    effects follow in the trace.  From that state, lines that are neither
    [event:] lines nor [data:] lines with a payload (keepalive comments,
    blank lines) change nothing. *)
Theorem C3_loop_runs_to_end_of_stream (st : Loop)
    (chunks1 chunks2 : list (string * string)) (now : string)
    (lines : list string) :
  Forall inert lines →
  fst (read_loop st (chunks1 ++ chunks2))
  = fst (read_loop (fst (read_loop st chunks1)) chunks2)
  ∧ snd (read_loop st (chunks1 ++ chunks2))
    = snd (read_loop st chunks1)
      ++ snd (read_loop (fst (read_loop st chunks1)) chunks2)
  ∧ process_lines now (fst (read_loop st chunks1)) lines
    = (fst (read_loop st chunks1), []).
Proof.
  intros Hin. rewrite read_loop_app.
  destruct (read_loop st chunks1) as [st1 tr1]. simpl.
  destruct (read_loop st1 chunks2) as [st2 tr2]. simpl.
  split; [done|]. split; [done|].
  induction Hin as [|line lines Hl _ IH]; [done|].
  simpl. by rewrite (process_line_inert _ _ _ Hl), IH.
Qed.

(** C8, as amended.  A [session_complete] event with a session id marks
    every record of the map complete and adds or removes no key.  It sends
    one [getSession] request when the stream has delivered a session id
    before ([sessionId] is set by [session_created]), and none otherwise. *)
Theorem C8_session_complete (now : string) (st : Loop) (data : Data.t)
    (eline dline : string) :
  is_event "session_complete" data eline dline →
  truthy (Data.session_id data) = true →
  (∀ k, streamingMessages (fst (process_lines now st [eline; dline])) !! k
        = mark_complete <$> streamingMessages st !! k)
  ∧ (∀ k rec,
       streamingMessages (fst (process_lines now st [eline; dline])) !! k
       = Some rec → Msg.isComplete rec = true)
  ∧ fetches (snd (process_lines now st [eline; dline]))
    = (if truthy_string (sessionId st) then 1 else 0)%nat.
Proof.
  intros Hev Hsid. rewrite (process_lines_event _ _ _ _ _ _ Hev).
  assert (∀ k,
    streamingMessages
      (fst (handle_data now
              (mkLoop (streamingMessages st) (sessionId st)
                 "session_complete" (requests st)) data)) !! k
    = mark_complete <$> streamingMessages st !! k) as Hmsgs.
  { intros k. rewrite handle_data_messages. unfold reduce. simpl.
    by rewrite Hsid, session_complete_update_lookup. }
  split; [done|]. split.
  - intros k rec. rewrite Hmsgs.
    destruct (streamingMessages st !! k); [|done]. by intros [= <-].
  - unfold handle_data. simpl. rewrite Hsid. simpl.
    destruct (truthy_string (sessionId st)); [|done].
    by destruct (getSession _ _).
Qed.

(** C9.  A [data:] line whose payload does not parse is logged and
    skipped: the line leaves the state of the loop as it was, the lines
    after it are processed, and the chunk ends in the state, and with the
    trace but for the log entry, that it has without the line; so does the
    rest of the stream. *)
Theorem C9_malformed_line_skipped (now : string) (st : Loop)
    (l1 l2 : list string) (bad : string) :
  malformed bad →
  (∀ st', process_line now st' bad
          = (st', [ConsoleError "Error parsing SSE data:"]))
  ∧ fst (process_lines now st (l1 ++ bad :: l2))
    = fst (process_lines now st (l1 ++ l2))
  ∧ (∃ tr1 tr2,
       snd (process_lines now st (l1 ++ l2)) = tr1 ++ tr2
       ∧ snd (process_lines now st (l1 ++ bad :: l2))
         = tr1 ++ ConsoleError "Error parsing SSE data:" :: tr2)
  ∧ (∀ chunk chunk' rest,
       split_lines chunk = l1 ++ bad :: l2 →
       split_lines chunk' = l1 ++ l2 →
       fst (read_loop st ((now, chunk) :: rest))
       = fst (read_loop st ((now, chunk') :: rest))).
Proof.
  intros Hbad. split; [intros st'; by apply process_line_malformed|].
  assert (fst (process_lines now st (l1 ++ bad :: l2))
          = fst (process_lines now st (l1 ++ l2))
          ∧ ∃ tr1 tr2,
              snd (process_lines now st (l1 ++ l2)) = tr1 ++ tr2
              ∧ snd (process_lines now st (l1 ++ bad :: l2))
                = tr1 ++ ConsoleError "Error parsing SSE data:" :: tr2)
    as [Hst Htr].
  { rewrite !process_lines_app.
    destruct (process_lines now st l1) as [st1 tr1].
    cbn [process_lines]. rewrite (process_line_malformed _ _ _ Hbad).
    destruct (process_lines now st1 l2) as [st2 tr2]. simpl.
    split; [done|]. by exists tr1, tr2. }
  split; [done|]. split; [done|].
  intros chunk chunk' rest Hc Hc'. cbn [read_loop]. rewrite Hc, Hc'.
  destruct (process_lines now st (l1 ++ bad :: l2)) as [st1 tr1].
  destruct (process_lines now st (l1 ++ l2)) as [st1' tr1'].
  simpl in Hst. subst st1'.
  by destruct (read_loop st1 rest).
Qed.

(** C10.  Along a streaming run no key leaves [streamingMessages], and a
    record that is complete stays complete: whatever lines the chunks
    carry, a key with a record before them has a record after them, which
    is complete when the earlier one was. *)
Theorem C10_keys_and_flags_monotone (st : Loop)
    (chunks : list (string * string)) (k : string) (rec : Msg.t) :
  streamingMessages st !! k = Some rec →
  ∃ rec',
    streamingMessages (fst (read_loop st chunks)) !! k = Some rec'
    ∧ (Msg.isComplete rec = true → Msg.isComplete rec' = true).
Proof. apply read_loop_grows. Qed.

(** * Further properties of the hook and of its neighbours *)

(** ** Polling, round by round *)

Lemma poll_run sid onUpdate interval (pending : list WorkshopSession) :
  ∀ n fuel,
  (∀ i s, pending !! i = Some s →
     getSession (n + i)%nat sid = Some s
     ∧ is_terminal (status s) = false) →
  (length pending ≤ fuel)%nat →
  poll fuel n sid onUpdate interval
  = let '(res, tr) :=
      poll (fuel - length pending) (n + length pending) sid onUpdate
           interval in
    (res,
     flat_map (λ s, round_trace sid onUpdate s ++ [Sleep interval]) pending
     ++ tr).
Proof.
  induction pending as [|s pending IH]; intros n fuel Hpre Hfuel.
  - simpl. rewrite Nat.sub_0_r, Nat.add_0_r.
    by destruct (poll fuel n sid onUpdate interval).
  - destruct fuel as [|fuel]; [simpl in Hfuel; lia|].
    destruct (Hpre 0%nat s eq_refl) as [Hs Hnt].
    rewrite Nat.add_0_r in Hs.
    cbn [poll]. rewrite Hs, Hnt.
    rewrite (IH (S n) fuel).
    + cbn [length]. replace (S fuel - S (length pending))%nat
        with (fuel - length pending)%nat by lia.
      replace (S n + length pending)%nat
        with (n + S (length pending))%nat by lia.
      destruct (poll _ _ sid onUpdate interval) as [res tr].
      f_equal. cbn [flat_map round_trace]. simpl.
      by rewrite <- !app_assoc.
    + intros i s' Hi. destruct (Hpre (S i) s' Hi) as [H1 H2].
      split; [|done]. rewrite <- H1. f_equal. lia.
    + simpl in Hfuel. lia.
Qed.

(** X1.  [pollSessionUntilComplete] against a store that answers with the
    sessions [pending], none of them terminal, and then with a terminal
    session: it returns that session.  Its trace is, for each of the
    earlier answers, the request, the update callback on the answer and a
    sleep of [pollInterval], and then the last request and the callback on
    the session returned: nothing is requested after the terminal answer. *)
Theorem X1_poll_trace (sid : string)
    (onUpdate : option (WorkshopSession → list Effect)) (interval : Z)
    (pending : list WorkshopSession) (final : WorkshopSession)
    (n fuel : nat) :
  (∀ i s, pending !! i = Some s →
     getSession (n + i)%nat sid = Some s
     ∧ is_terminal (status s) = false) →
  getSession (n + length pending)%nat sid = Some final →
  is_terminal (status final) = true →
  (length pending < fuel)%nat →
  pollSessionUntilComplete fuel n sid onUpdate interval
  = (Returns final,
     flat_map (λ s, round_trace sid onUpdate s ++ [Sleep interval]) pending
     ++ round_trace sid onUpdate final).
Proof.
  intros Hpre Hfinal Hterm Hfuel. unfold pollSessionUntilComplete.
  rewrite (poll_run sid onUpdate interval pending n fuel Hpre) by lia.
  destruct (fuel - length pending)%nat as [|fuel'] eqn:E; [lia|].
  cbn [poll]. by rewrite Hfinal, Hterm.
Qed.

(** X2.  A request that fails ends polling at once: after the answers
    [pending], none of them terminal, a rejected [getSession] makes
    [pollSessionUntilComplete] reject; that request is the last one, with
    no sleep and no retry after it. *)
Theorem X2_poll_rejects (sid : string)
    (onUpdate : option (WorkshopSession → list Effect)) (interval : Z)
    (pending : list WorkshopSession) (n fuel : nat) :
  (∀ i s, pending !! i = Some s →
     getSession (n + i)%nat sid = Some s
     ∧ is_terminal (status s) = false) →
  getSession (n + length pending)%nat sid = None →
  (length pending < fuel)%nat →
  pollSessionUntilComplete fuel n sid onUpdate interval
  = (Rejects,
     flat_map (λ s, round_trace sid onUpdate s ++ [Sleep interval]) pending
     ++ [GetSession sid]).
Proof.
  intros Hpre Hfail Hfuel. unfold pollSessionUntilComplete.
  rewrite (poll_run sid onUpdate interval pending n fuel Hpre) by lia.
  destruct (fuel - length pending)%nat as [|fuel'] eqn:E; [lia|].
  cbn [poll]. by rewrite Hfail.
Qed.

Lemma poll_returns_terminal_session sid onUpdate interval fuel :
  ∀ n session,
  fst (poll fuel n sid onUpdate interval) = Returns session →
  is_terminal (status session) = true.
Proof.
  induction fuel as [|fuel IH]; intros n session; [done|]. cbn [poll].
  destruct (getSession n sid) as [s|]; [|done].
  destruct (is_terminal (status s)) eqn:Hs.
  - simpl. by intros [= <-].
  - specialize (IH (S n) session).
    destruct (poll fuel (S n) sid onUpdate interval) as [res tr]. done.
Qed.

(** X3.  Whatever the store answers, a session that
    [pollSessionUntilComplete] returns has status [completed] or [failed]. *)
Theorem X3_poll_returns_terminal (sid : string)
    (onUpdate : option (WorkshopSession → list Effect)) (interval : Z)
    (fuel n : nat) (session : WorkshopSession) :
  fst (pollSessionUntilComplete fuel n sid onUpdate interval)
  = Returns session →
  status session = completed ∨ status session = failed.
Proof.
  intros H. apply poll_returns_terminal_session in H.
  destruct (status session); auto; discriminate.
Qed.

(** X6.  Polling goes on for as long as the store answers with sessions
    that are not terminal: after as many rounds as there are such answers
    it has sent one request and slept once for each of them, and is still
    pending.  There is no bound on the number of rounds. *)
Theorem X6_poll_keeps_polling (sid : string)
    (onUpdate : option (WorkshopSession → list Effect)) (interval : Z)
    (pending : list WorkshopSession) (n : nat) :
  (∀ i s, pending !! i = Some s →
     getSession (n + i)%nat sid = Some s
     ∧ is_terminal (status s) = false) →
  pollSessionUntilComplete (length pending) n sid onUpdate interval
  = (StillPolling,
     flat_map (λ s, round_trace sid onUpdate s ++ [Sleep interval]) pending).
Proof.
  intros Hpre. unfold pollSessionUntilComplete.
  rewrite (poll_run sid onUpdate interval pending n _ Hpre) by lia.
  rewrite Nat.sub_diag. cbn [poll]. by rewrite app_nil_r.
Qed.

(** ** [startPolling] *)

Lemma poll_no_toast sid interval fuel :
  ∀ n,
  toasts (map Call
            (snd (poll fuel n sid
                    (Some (λ s, [SetQueryData sid s])) interval))) = 0%nat.
Proof.
  induction fuel as [|fuel IH]; intros n; [done|]. cbn [poll].
  destruct (getSession n sid) as [s|]; [|done].
  destruct (is_terminal (status s)); [done|].
  specialize (IH (S n)).
  destruct (poll fuel (S n) sid _ interval) as [res tr]. exact IH.
Qed.

Lemma toasts_app (tr1 tr2 : list HookEffect) :
  toasts (tr1 ++ tr2) = (toasts tr1 + toasts tr2)%nat.
Proof. unfold toasts. by rewrite filter_app, length_app. Qed.

(** X4.  A call of [startPolling] that finds [isPolling] unset and comes to
    its end has shown exactly one toast, whether the session completed,
    failed, or a request was rejected, and its last two calls are
    [setIsPolling(false)] and [refetchSessions()]. *)
Theorem X4_startPolling_finishes (fuel n : nat) (sid : string)
    (tr : list HookEffect) :
  startPolling false fuel n sid = (true, tr) →
  toasts tr = 1%nat
  ∧ ∃ body,
      tr = SetIsPolling true :: body
           ++ [SetIsPolling false; Call RefetchSessions].
Proof.
  unfold startPolling, pollSessionUntilComplete.
  pose proof (poll_no_toast sid 3000 fuel n) as Hno.
  pose proof (poll_returns_terminal_session sid
    (Some (λ s, [SetQueryData sid s])) 3000 fuel n) as Hterm.
  destruct (poll fuel n sid _ 3000) as [[final| |] ptr]; simpl in *.
  - intros [= <-]. specialize (Hterm final eq_refl). split.
    + change (toasts ([SetIsPolling true] ++ map Call ptr
                      ++ final_toast final
                      ++ [SetIsPolling false; Call RefetchSessions])
              = 1%nat).
      rewrite !toasts_app, Hno. unfold final_toast.
      by destruct (status final).
    + exists (map Call ptr ++ final_toast final). by rewrite <- app_assoc.
  - intros [= <-]. split.
    + change (toasts ([SetIsPolling true] ++ map Call ptr
                      ++ [Call (ToastError
                                  "Polling error, please refresh manually");
                          Call (ConsoleError "Polling error:")]
                      ++ [SetIsPolling false; Call RefetchSessions])
              = 1%nat).
      by rewrite !toasts_app, Hno.
    + eexists (map Call ptr ++ [_; _]). by rewrite <- app_assoc.
  - discriminate.
Qed.

(** X5.  [startPolling] on a session that reaches a terminal status after
    the answers [pending]: every session fetched, the last one included, is
    written to the query cache right after its request, the requests are
    3000 ms apart, and the call ends with the toast for the final status,
    [setIsPolling(false)] and [refetchSessions()]. *)
Theorem X5_startPolling_trace (sid : string)
    (pending : list WorkshopSession) (final : WorkshopSession)
    (n fuel : nat) :
  (∀ i s, pending !! i = Some s →
     getSession (n + i)%nat sid = Some s
     ∧ is_terminal (status s) = false) →
  getSession (n + length pending)%nat sid = Some final →
  is_terminal (status final) = true →
  (length pending < fuel)%nat →
  startPolling false fuel n sid
  = (true,
     SetIsPolling true
     :: map Call
          (flat_map (λ s, [GetSession sid; SetQueryData sid s; Sleep 3000])
                    pending
           ++ [GetSession sid; SetQueryData sid final])
     ++ final_toast final
     ++ [SetIsPolling false; Call RefetchSessions]).
Proof.
  intros Hpre Hfinal Hterm Hfuel. unfold startPolling, pollSessionUntilComplete.
  rewrite (poll_run sid _ 3000 pending n fuel Hpre) by lia.
  destruct (fuel - length pending)%nat as [|fuel'] eqn:E; [lia|].
  cbn [poll]. by rewrite Hfinal, Hterm.
Qed.

(** ** Quiz status groups *)

Lemma group_fold (quizzes : list Quiz.t) :
  ∀ g,
  fold_left group_step quizzes g
  = Groups.mk
      (Groups.running g ++ filter (λ q, status_of q = "running") quizzes)
      (Groups.completed g
       ++ filter (λ q, status_of q = "completed") quizzes)
      (Groups.failed g ++ filter (λ q, status_of q = "failed") quizzes)
      (Groups.pending g
       ++ filter (λ q, status_of q ≠ "running"
                       ∧ status_of q ≠ "completed"
                       ∧ status_of q ≠ "failed") quizzes).
Proof.
  induction quizzes as [|q quizzes IH]; intros g.
  - simpl. rewrite !app_nil_r. by destruct g.
  - cbn [fold_left]. rewrite IH. unfold group_step.
    destruct (String.eqb_spec (status_of q) "running") as [Hr|Hr].
    { rewrite (filter_cons_True (λ q, status_of q = "running") _ _ Hr).
      rewrite !filter_cons_False by (rewrite Hr; intuition congruence).
      simpl. by rewrite <- app_assoc. }
    destruct (String.eqb_spec (status_of q) "completed") as [Hc|Hc].
    { rewrite (filter_cons_True (λ q, status_of q = "completed") _ _ Hc).
      rewrite !filter_cons_False by (rewrite ?Hc; intuition congruence).
      simpl. by rewrite <- app_assoc. }
    unfold includes, FAILED_QUIZ_STATUSES. cbn [existsb].
    destruct (String.eqb_spec (status_of q) "failed") as [Hf|Hf].
    { rewrite (filter_cons_True (λ q, status_of q = "failed") _ _ Hf).
      rewrite !filter_cons_False by (rewrite ?Hf; intuition congruence).
      simpl. by rewrite <- app_assoc. }
    rewrite (filter_cons_True (λ q, _ ∧ _) q quizzes) by done.
    rewrite !filter_cons_False by done.
    simpl. by rewrite <- app_assoc.
Qed.

(** X7.  [groupQuizzesByStatus] sorts the quizzes by status and keeps their
    order: each of [running], [completed] and [failed] holds the quizzes of
    that status, and [pending] holds all the others, among them the quizzes
    whose status is [pending], [submitted], [unknown], absent or not a known
    status at all. *)
Theorem X7_groups_are_filters (quizzes : list Quiz.t) :
  groupQuizzesByStatus quizzes
  = Groups.mk
      (filter (λ q, status_of q = "running") quizzes)
      (filter (λ q, status_of q = "completed") quizzes)
      (filter (λ q, status_of q = "failed") quizzes)
      (filter (λ q, status_of q ≠ "running"
                    ∧ status_of q ≠ "completed"
                    ∧ status_of q ≠ "failed") quizzes).
Proof. unfold groupQuizzesByStatus. by rewrite group_fold. Qed.

Lemma group_step_perm (g : Groups.t) (q : Quiz.t) :
  Groups.running (group_step g q) ++ Groups.completed (group_step g q)
  ++ Groups.failed (group_step g q) ++ Groups.pending (group_step g q)
  ≡ₚ (Groups.running g ++ Groups.completed g ++ Groups.failed g
      ++ Groups.pending g) ++ [q].
Proof.
  unfold group_step. repeat case_match; simpl;
    rewrite <- ?app_assoc; solve_Permutation.
Qed.

Lemma group_fold_perm (quizzes : list Quiz.t) :
  ∀ g,
  Groups.running (fold_left group_step quizzes g)
  ++ Groups.completed (fold_left group_step quizzes g)
  ++ Groups.failed (fold_left group_step quizzes g)
  ++ Groups.pending (fold_left group_step quizzes g)
  ≡ₚ (Groups.running g ++ Groups.completed g ++ Groups.failed g
      ++ Groups.pending g) ++ quizzes.
Proof.
  induction quizzes as [|q quizzes IH]; intros g.
  - simpl. by rewrite app_nil_r.
  - cbn [fold_left]. rewrite IH, group_step_perm.
    by rewrite <- app_assoc.
Qed.

(** X8.  The four groups of [groupQuizzesByStatus] are a partition of the
    input: together they hold every quiz exactly as often as the input
    does. *)
Theorem X8_groups_partition (quizzes : list Quiz.t) :
  Groups.running (groupQuizzesByStatus quizzes)
  ++ Groups.completed (groupQuizzesByStatus quizzes)
  ++ Groups.failed (groupQuizzesByStatus quizzes)
  ++ Groups.pending (groupQuizzesByStatus quizzes)
  ≡ₚ quizzes.
Proof. unfold groupQuizzesByStatus. by rewrite group_fold_perm. Qed.

(** X9.  The counts of [calculateQuizStatusCounts] add up: [total] is the
    sum of [running], [completed], [failed] and [pending]. *)
Theorem X9_counts_add_up (quizzes : list Quiz.t) :
  Counts.total (calculateQuizStatusCounts quizzes)
  = (Counts.running (calculateQuizStatusCounts quizzes)
     + Counts.completed (calculateQuizStatusCounts quizzes)
     + Counts.failed (calculateQuizStatusCounts quizzes)
     + Counts.pending (calculateQuizStatusCounts quizzes))%nat.
Proof.
  unfold calculateQuizStatusCounts, groupQuizzesByStatus. simpl.
  pose proof (group_fold_perm quizzes (Groups.mk [] [] [] [])) as H.
  apply Permutation_length in H. simpl in H.
  rewrite !length_app in H. lia.
Qed.

(** ** The typewriter *)

Lemma substring_0_0 (s : string) : String.substring 0 0 s = "".
Proof. by destruct s. Qed.

Lemma substring_0_length (s : string) :
  String.substring 0 (String.length s) s = s.
Proof. induction s as [|c s IH]; [done|]. simpl. by rewrite IH. Qed.

Lemma ticks_stopped text oc n :
  ∀ st, Typewriter.timer st = false → Typewriter.ticks n text oc st = st.
Proof.
  induction n as [|n IH]; intros st Hst; [done|].
  cbn [Typewriter.ticks]. unfold Typewriter.tick. rewrite Hst. simpl.
  by apply IH.
Qed.

Lemma ticks_add text oc n1 n2 :
  ∀ st, Typewriter.ticks (n1 + n2) text oc st
        = Typewriter.ticks n2 text oc (Typewriter.ticks n1 text oc st).
Proof. induction n1 as [|n1 IH]; intros st; [done|]. simpl. apply IH. Qed.

Lemma tick_running text oc i typing c :
  (i < String.length text)%nat →
  Typewriter.tick text oc
    (Typewriter.mk (String.substring 0 i text) typing i true c)
  = Typewriter.mk (String.substring 0 (S i) text) typing (S i) true c.
Proof.
  intros Hi. unfold Typewriter.tick.
  cbn [Typewriter.timer Typewriter.currentIndex Typewriter.isTyping
       Typewriter.completions negb].
  destruct (Nat.ltb_spec i (String.length text)); [|lia].
  by rewrite Nat.add_1_r.
Qed.

Lemma ticks_running text oc n :
  ∀ i typing c,
  (i + S n ≤ String.length text)%nat →
  Typewriter.ticks (S n) text oc
    (Typewriter.mk (String.substring 0 i text) typing i true c)
  = Typewriter.mk (String.substring 0 (i + S n) text) typing (i + S n)
      true c.
Proof.
  induction n as [|n IH]; intros i typing c Hi;
    cbn [Typewriter.ticks]; rewrite tick_running by lia.
  - by rewrite Nat.add_1_r.
  - specialize (IH (S i) typing c). cbn [Typewriter.ticks] in IH.
    rewrite IH by lia.
    by replace (S i + S n)%nat with (i + S (S n))%nat by lia.
Qed.

Lemma ticks_from_start text oc c n :
  (n ≤ String.length text)%nat →
  Typewriter.ticks n text oc (Typewriter.mk "" true 0 true c)
  = Typewriter.mk (String.substring 0 n text) true n true c.
Proof.
  intros Hn. destruct n as [|n]; [by rewrite substring_0_0|].
  rewrite <- (substring_0_0 text) at 1.
  by rewrite (ticks_running text oc n 0 true c).
Qed.

Lemma effect_starts text st :
  text ≠ "" →
  Typewriter.effect text true st
  = Typewriter.mk "" true 0 true (Typewriter.completions st).
Proof.
  intros Hne. unfold Typewriter.effect. simpl.
  apply truthy_string_true in Hne. by rewrite Hne.
Qed.

(** X10.  With the effect enabled on a text that is not empty, the first
    [n] timer periods show the first [n] characters, for every [n] up to the
    length of the text; the hook is typing all the while and has not called
    [onComplete]. *)
Theorem X10_typewriter_progress (text : string) (onComplete : bool)
    (st : Typewriter.t) (n : nat) :
  text ≠ "" → (n ≤ String.length text)%nat →
  Typewriter.ticks n text onComplete (Typewriter.effect text true st)
  = Typewriter.mk (String.substring 0 n text) true n true
      (Typewriter.completions st).
Proof.
  intros Hne Hn. rewrite effect_starts by done. by apply ticks_from_start.
Qed.

(** X11.  The animation of a text that is not empty ends with the timer
    period after the last character: from then on, however many periods
    pass, the whole text is shown, the hook is not typing, the timer is
    cleared, and [onComplete], when given, has been called once. *)
Theorem X11_typewriter_completes (text : string) (onComplete : bool)
    (st : Typewriter.t) (more : nat) :
  text ≠ "" →
  Typewriter.ticks (String.length text + (1 + more)) text onComplete
    (Typewriter.effect text true st)
  = Typewriter.mk text false (String.length text) false
      (if onComplete then S (Typewriter.completions st)
       else Typewriter.completions st).
Proof.
  intros Hne. rewrite effect_starts by done.
  rewrite ticks_add, ticks_from_start, substring_0_length by done.
  rewrite ticks_add. cbn [Typewriter.ticks]. unfold Typewriter.tick. simpl.
  rewrite Nat.ltb_irrefl. by apply ticks_stopped.
Qed.

(** X12.  [onComplete] is called only by an animation that runs to its end:
    after [skip], with the effect disabled, and with an empty text, the
    whole text is shown at once, the hook is not typing, and no number of
    timer periods changes the state or calls [onComplete]. *)
Theorem X12_typewriter_without_animation (text : string)
    (onComplete : bool) (st : Typewriter.t) (n : nat) :
  Typewriter.ticks n text onComplete (Typewriter.skip text st)
  = Typewriter.mk text false (String.length text) false
      (Typewriter.completions st)
  ∧ Typewriter.ticks n text onComplete
      (Typewriter.effect text false (Typewriter.cleanup st))
    = Typewriter.mk text false (Typewriter.currentIndex st) false
        (Typewriter.completions st)
  ∧ Typewriter.ticks n "" onComplete (Typewriter.effect "" true st)
    = Typewriter.mk "" false 0 false (Typewriter.completions st).
Proof. repeat split; by apply ticks_stopped. Qed.

(** ** Invariants of the records *)

Lemma read_loop_messages_invariant (Inv : gmap string Msg.t → Prop) :
  (∀ now ty data m, Inv m → Inv (reduce now ty data m)) →
  ∀ chunks st,
    Inv (streamingMessages st) →
    Inv (streamingMessages (fst (read_loop st chunks))).
Proof.
  intros Hstep.
  assert (∀ now st line,
    Inv (streamingMessages st) →
    Inv (streamingMessages (fst (process_line now st line)))) as Hline.
  { intros now st line Hst. unfold process_line.
    repeat case_match; try done. rewrite handle_data_messages. auto. }
  assert (∀ now lines st,
    Inv (streamingMessages st) →
    Inv (streamingMessages (fst (process_lines now st lines)))) as Hlines.
  { intros now lines. induction lines as [|line lines IH]; intros st Hst.
    - done.
    - simpl. specialize (Hline now st line Hst).
      destruct (process_line now st line) as [st1 tr1].
      specialize (IH st1 Hline).
      by destruct (process_lines now st1 lines). }
  induction chunks as [|[now chunk] chunks IH]; intros st Hst; [done|].
  simpl. specialize (Hlines now (split_lines chunk) st Hst).
  destruct (process_lines now st (split_lines chunk)) as [st1 tr1].
  specialize (IH st1 Hlines). by destruct (read_loop st1 chunks).
Qed.

Lemma reduce_filed now ty data (m : gmap string Msg.t) :
  map_Forall filed_under m → map_Forall filed_under (reduce now ty data m).
Proof.
  intros Hm. by_type ty.
  - destruct (keyed data) as [[a r]|] eqn:Hk; [|done].
    apply keyed_Some in Hk as (_ & _ & Ha & Hr).
    unfold agent_start_update.
    destruct (m !! key_of a r) eqn:E; [done|].
    by apply map_Forall_insert_2.
  - destruct (keyed data) as [[a r]|] eqn:Hk, (Data.chunk data) as [c|];
      try done.
    apply keyed_Some in Hk as (_ & _ & Ha & Hr).
    destruct (truthy_string c); [|done]. unfold agent_chunk_update.
    destruct (m !! key_of a r) as [e|] eqn:E;
      apply map_Forall_insert_2; try done.
    destruct (Hm _ _ E) as (H1 & H2 & H3 & H4). by repeat split.
  - destruct (keyed data) as [[a r]|] eqn:Hk; [|done].
    apply keyed_Some in Hk as (_ & _ & Ha & Hr).
    unfold agent_complete_update.
    destruct (m !! key_of a r) as [e|] eqn:E;
      apply map_Forall_insert_2; try done.
    destruct (Hm _ _ E) as (H1 & H2 & H3 & H4). by repeat split.
  - destruct (truthy _); [|done].
    rewrite session_complete_update_fmap. by apply map_Forall_fmap.
  - done.
Qed.

Lemma reduce_tools now ty data (m : gmap string Msg.t) :
  map_Forall (λ _, tools_when_complete) m →
  map_Forall (λ _, tools_when_complete) (reduce now ty data m).
Proof.
  intros Hm. by_type ty.
  - destruct (keyed data) as [[a r]|]; [|done].
    unfold agent_start_update.
    destruct (m !! key_of a r) eqn:E; [done|].
    by apply map_Forall_insert_2.
  - destruct (keyed data) as [[a r]|], (Data.chunk data) as [c|];
      try done.
    destruct (truthy_string c); [|done]. unfold agent_chunk_update.
    destruct (m !! key_of a r) as [e|] eqn:E;
      apply map_Forall_insert_2; try done.
    exact (Hm _ _ E).
  - destruct (keyed data) as [[a r]|]; [|done].
    unfold agent_complete_update.
    destruct (m !! key_of a r) as [e|] eqn:E;
      by apply map_Forall_insert_2.
  - destruct (truthy _); [|done].
    rewrite session_complete_update_fmap. apply map_Forall_fmap.
    intros k rec _. done.
  - done.
Qed.

(** X13.  At every point of a streaming run, each record of
    [streamingMessages] is filed under the key of its own agent id and
    round, both truthy, and has the agent id for a name. *)
Theorem X13_records_filed_under_own_key (chunks : list (string * string))
    (k : string) (rec : Msg.t) :
  streamingMessages (fst (read_loop initial chunks)) !! k = Some rec →
  filed_under k rec.
Proof.
  revert k rec.
  apply (read_loop_messages_invariant (map_Forall filed_under)).
  - intros now ty data m. apply reduce_filed.
  - apply map_Forall_empty.
Qed.

(** X14.  At every point of a streaming run, a record that is not complete
    has no tool calls: they are attached by [agent_complete] only. *)
Theorem X14_tool_calls_only_when_complete (chunks : list (string * string))
    (k : string) (rec : Msg.t) :
  streamingMessages (fst (read_loop initial chunks)) !! k = Some rec →
  Msg.isComplete rec = false → Msg.tool_calls rec = None.
Proof.
  revert k rec.
  apply (read_loop_messages_invariant
           (map_Forall (λ _, tools_when_complete))).
  - intros now ty data m. apply reduce_tools.
  - apply map_Forall_empty.
Qed.

(** ** Lines and chunks *)

Lemma split_lines_not_nil (s : string) : split_lines s ≠ [].
Proof.
  destruct s as [|c s]; [done|]. simpl.
  destruct (Ascii.eqb c "010"); [done|]. by destruct (split_lines s).
Qed.

Lemma split_lines_newline (c1 c2 : string) :
  split_lines (c1 +:+ newline +:+ c2) = split_lines c1 ++ split_lines c2.
Proof.
  induction c1 as [|c c1 IH]; [done|].
  rewrite append_cons. cbn [split_lines]. rewrite IH.
  destruct (Ascii.eqb c "010"); [done|].
  pose proof (split_lines_not_nil c1). by destruct (split_lines c1).
Qed.

(** X15.  Where the transport cuts the stream does not matter as long as
    it cuts at the end of a line: two chunks handled at the same clock
    reading, the first ending in a newline, leave the loop in the state and
    with the trace of the one chunk that holds both. *)
Theorem X15_chunks_cut_at_line_end (st : Loop) (now c1 c2 : string)
    (rest : list (string * string)) :
  read_loop st ((now, c1 +:+ newline) :: (now, c2) :: rest)
  = read_loop st ((now, c1 +:+ newline +:+ c2) :: rest).
Proof.
  cbn [read_loop]. rewrite split_lines_newline.
  rewrite <- (append_nil_r (c1 +:+ newline)), append_assoc.
  rewrite split_lines_newline. cbn [split_lines].
  rewrite !process_lines_app.
  destruct (process_lines now st (split_lines c1)) as [st1 tr1].
  cbn [process_lines].
  rewrite (process_line_inert now st1 "") by (split; [done | by left]).
  destruct (process_lines now st1 (split_lines c2)) as [st2 tr2].
  destruct (read_loop st2 rest) as [st3 tr3].
  simpl. by rewrite app_nil_r, app_assoc.
Qed.

Lemma handle_data_resets now st data :
  currentEventType st ≠ "session_complete" →
  currentEventType (fst (handle_data now st data)) = "".
Proof.
  intros Hty. unfold handle_data.
  destruct (String.eqb_spec (currentEventType st) "session_complete");
    [done|].
  by repeat case_match.
Qed.

Lemma handle_data_no_type now st data :
  currentEventType st = "" → handle_data now st data = (st, []).
Proof.
  intros Hty. unfold handle_data, reduce. rewrite Hty. simpl.
  destruct st. simpl in *. by subst.
Qed.

(** X16.  An event is its [event:] line and the first [data:] line after
    it.  The dispatch clears the pending type, so a further [data:] line
    before the next [event:] line, even one that parses, is dropped: it
    changes neither the state nor the trace. *)
Theorem X16_second_data_line_dropped (now : string) (st : Loop)
    (ty : string) (data data2 : Data.t) (eline dline dline2 : string) :
  is_event ty data eline dline →
  ty ≠ "session_complete" →
  startsWith dline2 "data:" = true →
  JSON_parse (trim (substring_from 5 dline2)) = Some data2 →
  process_lines now st [eline; dline; dline2]
  = process_lines now st [eline; dline].
Proof.
  intros Hev Hty Hd2 Hp2.
  change [eline; dline; dline2] with ([eline; dline] ++ [dline2]).
  rewrite process_lines_app, (process_lines_event _ _ _ _ _ _ Hev).
  pose proof (handle_data_resets now
    (mkLoop (streamingMessages st) (sessionId st) ty (requests st)) data
    Hty) as Hreset.
  destruct (handle_data now _ data) as [st1 tr1]. simpl in Hreset.
  cbn [process_lines]. unfold process_line.
  rewrite (data_line_not_event_line _ Hd2), Hd2, Hp2.
  destruct (String.eqb _ ""); [by rewrite !app_nil_r|].
  rewrite (handle_data_no_type now st1 data2 Hreset).
  by rewrite !app_nil_r.
Qed.

(** ** What the loop requests and shows *)

Lemma announced_app c tr1 tr2 :
  announced c (tr1 ++ tr2) = announced (announced c tr1) tr2.
Proof.
  revert c. induction tr1 as [|e tr1 IH]; intros c; [done|].
  destruct e; simpl; apply IH.
Qed.

Lemma fetches_announced_app c tr1 tr2 :
  fetches_announced c tr1 →
  fetches_announced (announced c tr1) tr2 →
  fetches_announced c (tr1 ++ tr2).
Proof.
  revert c. induction tr1 as [|e tr1 IH]; intros c H1 H2; [done|].
  destruct e; simpl in *; try (by apply IH).
  destruct H1 as (? & ? & H1). repeat split; try done. by apply IH.
Qed.

Lemma handle_data_fetches now st data :
  fetches_announced (sessionId st) (snd (handle_data now st data))
  ∧ announced (sessionId st) (snd (handle_data now st data))
    = sessionId (fst (handle_data now st data)).
Proof.
  unfold handle_data.
  destruct (_ && _); [done|].
  destruct (_ && _).
  { destruct (truthy_string (sessionId st)) eqn:Hs; [|done].
    apply truthy_string_true in Hs. by destruct (getSession _ _). }
  by destruct (_ && _).
Qed.

Lemma process_line_fetches now st line :
  fetches_announced (sessionId st) (snd (process_line now st line))
  ∧ announced (sessionId st) (snd (process_line now st line))
    = sessionId (fst (process_line now st line)).
Proof.
  unfold process_line. repeat case_match; try done.
  apply handle_data_fetches.
Qed.

Lemma process_lines_fetches now lines :
  ∀ st,
  fetches_announced (sessionId st) (snd (process_lines now st lines))
  ∧ announced (sessionId st) (snd (process_lines now st lines))
    = sessionId (fst (process_lines now st lines)).
Proof.
  induction lines as [|line lines IH]; intros st; [done|]. simpl.
  destruct (process_line_fetches now st line) as [H1 H2].
  destruct (process_line now st line) as [st1 tr1].
  destruct (IH st1) as [H3 H4].
  destruct (process_lines now st1 lines) as [st2 tr2]. simpl in *.
  rewrite announced_app, H2. split; [|done].
  apply fetches_announced_app; [done | by rewrite H2].
Qed.

(** X17.  The loop requests only the session that the stream announced:
    every [getSession] of a run asks for the id of the latest
    [session_created] event before it, which is not empty, and a run that
    starts without a session id sends no request before the first
    [session_created]. *)
Theorem X17_fetches_announced_session (st : Loop)
    (chunks : list (string * string)) :
  fetches_announced (sessionId st) (snd (read_loop st chunks)).
Proof.
  revert st. induction chunks as [|[now chunk] chunks IH]; intros st;
    [done|]. simpl.
  destruct (process_lines_fetches now (split_lines chunk) st) as [H1 H2].
  destruct (process_lines now st (split_lines chunk)) as [st1 tr1].
  specialize (IH st1).
  destruct (read_loop st1 chunks) as [st2 tr2]. simpl in *.
  apply fetches_announced_app; [done | by rewrite H2].
Qed.





(** ** The message cards *)

Lemma card_key_inj (m1 m2 : AgentMessage) (i j : nat) :
  card_key m1 i = card_key m2 j → i = j.
Proof.
  unfold card_key. intros Heq.
  rewrite <- !(append_assoc (am_agent_id _) "-"
                  (pretty (am_round_number _) +:+ "-" +:+ pretty _)),
          <- !(append_assoc (am_agent_id _ +:+ "-")) in Heq.
  apply split_at_last_dash in Heq as [_ Heq];
    [|apply pretty_Z_dash_free; lia..].
  apply (inj pretty) in Heq. lia.
Qed.

(** X19.  The React keys of the cards of a session's messages are pairwise
    distinct, also when an agent has several messages in one round. *)
Theorem X19_card_keys_distinct (session : WorkshopSession) :
  NoDup ((λ card, card.1.1) <$> session_cards session).
Proof.
  apply NoDup_alt. intros i j k. unfold session_cards.
  rewrite !list_lookup_fmap, !list_lookup_imap.
  destruct (messages session !! i) as [mi|]; [|done].
  destruct (messages session !! j) as [mj|]; [|done]. simpl.
  intros [= <-] [= Heq]. symmetry in Heq. by apply card_key_inj in Heq.
Qed.


End Client.

(** * Instances of the claims on the sample events *)

(** Closes [Forall (fragment_for a r) l] and [Forall (event_for a r) l] on a
    list that is written out. *)
Ltac events_ok :=
  repeat first
    [ apply Forall_nil
    | apply Forall_cons; split
    | reflexivity
    | left; reflexivity
    | right; reflexivity
    | split ].

Lemma C1_complete_content_witness :
  ∃ rec,
    reduce_all ([("t1", "agent_start", Sample.agent "A" 1);
                 ("t2", "agent_chunk", Sample.delta "A" 1 "Hel");
                 ("t3", "agent_chunk", Sample.delta "A" 1 "lo")]
                ++ [("t4", "agent_complete", Sample.full "A" 1 "Hello world")])
      ∅ !! key_of "A" 1 = Some rec
    ∧ Msg.content rec = "Hello world".
Proof.
  destruct (C1_complete_content "A" 1
    [("t1", "agent_start", Sample.agent "A" 1);
     ("t2", "agent_chunk", Sample.delta "A" 1 "Hel");
     ("t3", "agent_chunk", Sample.delta "A" 1 "lo")]
    "t4" (Sample.full "A" 1 "Hello world") ∅) as (rec & H1 & _ & _ & H2).
  - events_ok.
  - reflexivity.
  - exists rec. split; [exact H1 | by apply H2].
Defined.

(** C1 as stated fails: a chunk [Hello] followed by an [agent_complete]
    whose content is the empty string leaves the content [Hello], not the
    content of the payload. *)
Lemma C1_counterexample :
  ∃ rec,
    reduce_all [("t1", "agent_chunk", Sample.delta "A" 1 "Hello");
                ("t2", "agent_complete", Sample.full "A" 1 "")] ∅
      !! key_of "A" 1 = Some rec
    ∧ Msg.content rec = "Hello"
    ∧ Some (Msg.content rec) ≠ Data.content (Sample.full "A" 1 "").
Proof. eexists. split; [vm_compute; reflexivity|]. split; done. Qed.

Lemma C6_keys_independent_witness :
  let la := [("t1", "agent_start", Sample.agent "A" 1);
             ("t3", "agent_chunk", Sample.delta "A" 1 "Hello")] in
  let lb := [("t2", "agent_complete", Sample.full "B" 1 "Ack")] in
  let l := [("t1", "agent_start", Sample.agent "A" 1);
            ("t2", "agent_complete", Sample.full "B" 1 "Ack");
            ("t3", "agent_chunk", Sample.delta "A" 1 "Hello")] in
  reduce_all l ∅ !! key_of "A" 1 = reduce_all la ∅ !! key_of "A" 1
  ∧ reduce_all l ∅ !! key_of "B" 1 = reduce_all lb ∅ !! key_of "B" 1.
Proof.
  intros la lb l. apply C6_keys_independent.
  - discriminate.
  - lia.
  - lia.
  - events_ok.
  - events_ok.
  - repeat constructor.
Defined.

Lemma C2_after_complete_witness :
  ∃ rec,
    reduce "t1" "agent_complete" (Sample.full "A" 1 "Hello") ∅
      !! key_of "A" 1 = Some rec
    ∧ Msg.isComplete rec = true.
Proof.
  destruct (C2_after_complete "t1" (Sample.full "A" 1 "Hello") "A" 1 ∅)
    as (rec & H1 & H2 & _).
  - reflexivity.
  - exists rec. split; [exact H1 | exact H2].
Defined.

(** C2 as stated fails: after [agent_complete] with content [Hello], an
    [agent_chunk] for the same key changes the content to [Hello!]. *)
Lemma C2_counterexample :
  Msg.content
    <$> (reduce_all [("t1", "agent_complete", Sample.full "A" 1 "Hello")] ∅
           !! key_of "A" 1) = Some "Hello"
  ∧ Msg.content
    <$> (reduce_all [("t1", "agent_complete", Sample.full "A" 1 "Hello");
                     ("t2", "agent_chunk", Sample.delta "A" 1 "!")] ∅
           !! key_of "A" 1) = Some "Hello!".
Proof. split; vm_compute; reflexivity. Qed.

Lemma C7_out_of_order_witness :
  reduce "t1" "agent_complete" (Sample.full "X" 2 "Done") ∅ !! key_of "X" 2
  = Some (Msg.mk "X" "X" "Done" 2 "t1" true (Some [])).
Proof.
  apply (C7_out_of_order "t1" (Sample.full "X" 2 "Done") "X" 2 ∅).
  - reflexivity.
  - reflexivity.
Defined.

(** C7 as stated fails for an empty delta: the guard [data.chunk] drops the
    event and no record is created. *)
Lemma C7_counterexample :
  Data.chunk (Sample.delta "A" 1 "") = Some ""
  ∧ reduce "t1" "agent_chunk" (Sample.delta "A" 1 "") ∅ !! key_of "A" 1
    = None.
Proof. split; reflexivity. Qed.


(** The sequential two-agent scenario ends with both records complete. *)
Example scenario_sequential :
  map_to_list
    (streamingMessages
       (fst (read_loop Sample.JSON_parse (Sample.getSession 0) initial
               [("t0", Sample.scenario)])))
  = [("A-1", Msg.mk "A" "A" "Hello world" 1 "t0" true (Some []));
     ("B-1", Msg.mk "B" "B" "Ack" 1 "t0" true (Some []))].
Proof. vm_compute. reflexivity. Qed.

Lemma C3_loop_runs_to_end_of_stream_witness :
  process_lines Sample.JSON_parse (Sample.getSession 0) "t1"
    (fst (read_loop Sample.JSON_parse (Sample.getSession 0) initial
            [("t0", Sample.scenario)]))
    [": heartbeat"; ""]
  = (fst (read_loop Sample.JSON_parse (Sample.getSession 0) initial
            [("t0", Sample.scenario)]), []).
Proof.
  apply (C3_loop_runs_to_end_of_stream Sample.JSON_parse
           (Sample.getSession 0) initial [("t0", Sample.scenario)] [] "t1"
           [": heartbeat"; ""]).
  apply Forall_cons. split; [split; [reflexivity | left; reflexivity]|].
  apply Forall_cons. split; [split; [reflexivity | left; reflexivity]|].
  by apply Forall_nil.
Defined.

(** C3 as stated fails: an [agent_start] that follows [session_complete],
    or [error], on the same stream is processed and adds a record. *)
Lemma C3_counterexample :
  let run := read_loop Sample.JSON_parse (Sample.getSession 0) initial in
  let late := ("t1", sse "agent_start" (Sample.agent "A" 1)) in
  let closed := ("t0", sse "session_created" Sample.sid
                       +:+ sse "session_complete" Sample.sid) in
  let broken := ("t0", sse "error" Sample.err) in
  (streamingMessages (fst (run [closed])) !! key_of "A" 1 = None
   ∧ streamingMessages (fst (run [closed; late])) !! key_of "A" 1
     = Some (Msg.mk "A" "A" "" 1 "t1" false None)
   ∧ fst (run [closed; late]) ≠ fst (run [closed]))
  ∧ (streamingMessages (fst (run [broken])) !! key_of "A" 1 = None
     ∧ streamingMessages (fst (run [broken; late])) !! key_of "A" 1
       = Some (Msg.mk "A" "A" "" 1 "t1" false None)
     ∧ fst (run [broken; late]) ≠ fst (run [broken])).
Proof.
  intros run late closed broken.
  assert (∀ st1 st2 : Loop,
    streamingMessages st1 !! key_of "A" 1 = None →
    streamingMessages st2 !! key_of "A" 1
    = Some (Msg.mk "A" "A" "" 1 "t1" false None) → st2 ≠ st1) as Hne.
  { intros st1 st2 H1 H2 ->. congruence. }
  split.
  - assert (streamingMessages (fst (run [closed])) !! key_of "A" 1 = None)
      as H1 by (vm_compute; reflexivity).
    assert (streamingMessages (fst (run [closed; late])) !! key_of "A" 1
            = Some (Msg.mk "A" "A" "" 1 "t1" false None))
      as H2 by (vm_compute; reflexivity).
    eauto.
  - assert (streamingMessages (fst (run [broken])) !! key_of "A" 1 = None)
      as H1 by (vm_compute; reflexivity).
    assert (streamingMessages (fst (run [broken; late])) !! key_of "A" 1
            = Some (Msg.mk "A" "A" "" 1 "t1" false None))
      as H2 by (vm_compute; reflexivity).
    eauto.
Qed.

(** C4: the fallback of the [catch].  On the first session of a view the
    callback has closed over [currentSessionId = null]: the stream delivers
    the session id [s1], reading then fails with a network error, and the
    trace has the error toast and no polling.  With an earlier session [s0]
    in [currentSessionId] the session polled is [s0], not the session [s1]
    of this stream. *)
Theorem C4_fallback_misses_new_session :
  let response :=
    Body [("t0", sse "session_created" Sample.sid
                 +:+ sse "agent_start" (Sample.agent "A" 1))]
         (ReadRejects "TypeError") in
  snd (createSessionWithStreaming Sample.JSON_parse (Sample.getSession 2)
         None response)
  = [SetIsStreaming true; SetCurrentSessionId "s1";
     ConsoleError "SSE error:";
     ToastError "Streaming error, falling back to polling...";
     SetIsStreaming false]
  ∧ snd (createSessionWithStreaming Sample.JSON_parse (Sample.getSession 2)
           (Some "s0") response)
    = [SetIsStreaming true; SetCurrentSessionId "s1";
       ConsoleError "SSE error:";
       ToastError "Streaming error, falling back to polling...";
       StartPolling "s0";
       SetIsStreaming false].
Proof. split; vm_compute; reflexivity. Qed.

(** Polling itself does what it says: the store of the sample answers
    [in_progress] twice and then [completed], and three requests return the
    completed session. *)
Example poll_sample :
  poll (Sample.getSession 2) 5 0 "s1" None 3000
  = (Returns (Sample.session completed),
     [GetSession "s1"; Sleep 3000; GetSession "s1"; Sleep 3000;
      GetSession "s1"]).
Proof. reflexivity. Qed.

Lemma C8_session_complete_witness :
  fetches
    (snd (process_lines Sample.JSON_parse (Sample.getSession 0) "t1"
            (mkLoop ∅ "s1" "" 0)
            ["event: session_complete";
             "data: " +:+ JSON_stringify Sample.sid]))
  = 1%nat.
Proof.
  apply (C8_session_complete Sample.JSON_parse (Sample.getSession 0) "t1"
           (mkLoop ∅ "s1" "" 0) Sample.sid).
  - repeat split; try reflexivity. vm_compute. discriminate.
  - reflexivity.
Defined.

(** C8 as stated fails: on a stream that has not delivered
    [session_created], [session_complete] marks the records complete and
    sends no [getSession] request. *)
Lemma C8_counterexample :
  let run :=
    read_loop Sample.JSON_parse (Sample.getSession 0) initial
      [("t0", sse "agent_start" (Sample.agent "A" 1)
              +:+ sse "session_complete" Sample.sid)] in
  streamingMessages (fst run) !! key_of "A" 1
  = Some (Msg.mk "A" "A" "" 1 "t0" true None)
  ∧ fetches (snd run) = 0%nat
  ∧ requests (fst run) = 0%nat.
Proof. repeat split; vm_compute; reflexivity. Qed.

Lemma C9_malformed_line_skipped_witness :
  process_line Sample.JSON_parse (Sample.getSession 0) "t1" initial
    "data: {oops"
  = (initial, [ConsoleError "Error parsing SSE data:"]).
Proof.
  apply (C9_malformed_line_skipped Sample.JSON_parse (Sample.getSession 0)
           "t1" initial [] [] "data: {oops").
  repeat split; try reflexivity. vm_compute. discriminate.
Defined.

Lemma C10_keys_and_flags_monotone_witness :
  ∃ rec',
    streamingMessages
      (fst (read_loop Sample.JSON_parse (Sample.getSession 0)
              (mkLoop {[ "A-1" := Msg.mk "A" "A" "Hi" 1 "t0" true None ]}
                      "s1" "" 0)
              [("t1", sse "agent_chunk" (Sample.delta "A" 1 "Hello"))]))
      !! "A-1" = Some rec'
    ∧ (Msg.isComplete (Msg.mk "A" "A" "Hi" 1 "t0" true None) = true →
       Msg.isComplete rec' = true).
Proof.
  apply (C10_keys_and_flags_monotone Sample.JSON_parse (Sample.getSession 0)
           (mkLoop {[ "A-1" := Msg.mk "A" "A" "Hi" 1 "t0" true None ]}
                   "s1" "" 0)
           [("t1", sse "agent_chunk" (Sample.delta "A" 1 "Hello"))]
           "A-1").
  reflexivity.
Defined.

(** * Instances of the further properties *)

(** Closes the premise on the answers before the terminal one, for a list
    of two answers. *)
Ltac two_answers :=
  intros [|[|i]] s; simpl; intros [= <-]; split; reflexivity.

Lemma X1_poll_trace_witness :
  pollSessionUntilComplete (Sample.getSession 2) 5 0 "s1" None 3000
  = (Returns (Sample.session completed),
     [GetSession "s1"; Sleep 3000; GetSession "s1"; Sleep 3000;
      GetSession "s1"]).
Proof.
  apply (X1_poll_trace (Sample.getSession 2) "s1" None 3000
           [Sample.session in_progress; Sample.session in_progress]
           (Sample.session completed) 0 5).
  - two_answers.
  - reflexivity.
  - reflexivity.
  - simpl. lia.
Defined.

Lemma X2_poll_rejects_witness :
  pollSessionUntilComplete (Sample.failing 2) 5 0 "s1" None 3000
  = (Rejects,
     [GetSession "s1"; Sleep 3000; GetSession "s1"; Sleep 3000;
      GetSession "s1"]).
Proof.
  apply (X2_poll_rejects (Sample.failing 2) "s1" None 3000
           [Sample.session in_progress; Sample.session in_progress] 0 5).
  - two_answers.
  - reflexivity.
  - simpl. lia.
Defined.

Lemma X3_poll_returns_terminal_witness :
  status (Sample.session completed) = completed
  ∨ status (Sample.session completed) = failed.
Proof.
  apply (X3_poll_returns_terminal (Sample.getSession 2) "s1" None 3000 5 0
           (Sample.session completed)).
  reflexivity.
Defined.

Lemma X4_startPolling_finishes_witness :
  toasts (snd (startPolling (Sample.getSession 2) false 5 0 "s1")) = 1%nat.
Proof.
  apply (X4_startPolling_finishes (Sample.getSession 2) 5 0 "s1"
           (snd (startPolling (Sample.getSession 2) false 5 0 "s1"))).
  reflexivity.
Defined.

Lemma X5_startPolling_trace_witness :
  startPolling (Sample.getSession 2) false 5 0 "s1"
  = (true,
     [SetIsPolling true;
      Call (GetSession "s1");
      Call (SetQueryData "s1" (Sample.session in_progress));
      Call (Sleep 3000);
      Call (GetSession "s1");
      Call (SetQueryData "s1" (Sample.session in_progress));
      Call (Sleep 3000);
      Call (GetSession "s1");
      Call (SetQueryData "s1" (Sample.session completed));
      Call (ToastSuccess "Discussion completed!");
      SetIsPolling false;
      Call RefetchSessions]).
Proof.
  apply (X5_startPolling_trace (Sample.getSession 2) "s1"
           [Sample.session in_progress; Sample.session in_progress]
           (Sample.session completed) 0 5).
  - two_answers.
  - reflexivity.
  - reflexivity.
  - simpl. lia.
Defined.

Lemma X6_poll_keeps_polling_witness :
  pollSessionUntilComplete (Sample.getSession 2) 2 0 "s1" None 3000
  = (StillPolling,
     [GetSession "s1"; Sleep 3000; GetSession "s1"; Sleep 3000]).
Proof.
  apply (X6_poll_keeps_polling (Sample.getSession 2) "s1" None 3000
           [Sample.session in_progress; Sample.session in_progress] 0).
  two_answers.
Defined.

Lemma X10_typewriter_progress_witness :
  Typewriter.ticks 2 "Hello" true
    (Typewriter.effect "Hello" true Typewriter.mount)
  = Typewriter.mk "He" true 2 true 0.
Proof.
  apply (X10_typewriter_progress "Hello" true Typewriter.mount 2).
  - discriminate.
  - simpl. lia.
Defined.

Lemma X11_typewriter_completes_witness :
  Typewriter.ticks (String.length "Hello" + (1 + 3)) "Hello" true
    (Typewriter.effect "Hello" true Typewriter.mount)
  = Typewriter.mk "Hello" false 5 false 1.
Proof.
  apply (X11_typewriter_completes "Hello" true Typewriter.mount 3).
  discriminate.
Defined.

Lemma X13_records_filed_under_own_key_witness :
  filed_under "A-1" (Msg.mk "A" "A" "Hello world" 1 "t0" true (Some [])).
Proof.
  apply (X13_records_filed_under_own_key Sample.JSON_parse
           (Sample.getSession 0) [("t0", Sample.scenario)]).
  vm_compute. reflexivity.
Defined.

Lemma X14_tool_calls_only_when_complete_witness :
  Msg.tool_calls (Msg.mk "A" "A" "Hello" 1 "t0" false None) = None.
Proof.
  apply (X14_tool_calls_only_when_complete Sample.JSON_parse
           (Sample.getSession 0)
           [("t0", sse "agent_start" (Sample.agent "A" 1)
                   +:+ sse "agent_chunk" (Sample.delta "A" 1 "Hello"))]
           "A-1").
  - vm_compute. reflexivity.
  - reflexivity.
Defined.

Lemma X16_second_data_line_dropped_witness :
  process_lines Sample.JSON_parse (Sample.getSession 0) "t1" initial
    ["event: agent_chunk";
     "data: " +:+ JSON_stringify (Sample.delta "A" 1 "Hello");
     "data: " +:+ JSON_stringify (Sample.delta "A" 1 " world")]
  = process_lines Sample.JSON_parse (Sample.getSession 0) "t1" initial
      ["event: agent_chunk";
       "data: " +:+ JSON_stringify (Sample.delta "A" 1 "Hello")].
Proof.
  apply (X16_second_data_line_dropped Sample.JSON_parse
           (Sample.getSession 0) "t1" initial "agent_chunk"
           (Sample.delta "A" 1 "Hello") (Sample.delta "A" 1 " world")).
  - repeat split; try reflexivity. vm_compute. discriminate.
  - discriminate.
  - reflexivity.
  - reflexivity.
Defined.

